(** * The chat client: API client ([api.js]) and conversation view ([App])

    A shallow embedding of the three HTTP operations of the API client and
    of the event handlers of the conversation view, with the properties of
    the optimistic-update reconciliation in the send flow. *)

From Stdlib Require Import ZArith List Bool Ascii String Sorted Lia.
From Stdlib Require Import Decimal DecimalString DecimalZ.
Import ListNotations.

Local Open Scope string_scope.
Local Open Scope Z_scope.

(** ** JavaScript values used by the program *)

(** Strings are sequences of code units; the model keeps the one-byte
    code units, which cover every literal of the program.  A text with a
    code unit from 256 up has no counterpart here. *)

(** The [WhiteSpace] and [LineTerminator] code units below 256: TAB, LF,
    VT, FF, CR, SP, NBSP.  On one-byte code units these are all that
    [String.prototype.trim] strips; the ones it strips from 256 up
    (U+1680, U+2000 to U+200A, U+2028, U+2029, U+202F, U+205F, U+3000,
    U+FEFF) lie outside the strings of the model. *)
Definition isWhiteSpace (c : ascii) : bool :=
  let n := N_of_ascii c in
  ((9 <=? n) && (n <=? 13) || (n =? 32) || (n =? 160))%N.

Fixpoint trimStart (s : string) : string :=
  match s with
  | EmptyString => EmptyString
  | String c s' => if isWhiteSpace c then trimStart s' else s
  end.

Fixpoint trimEnd (s : string) : string :=
  match s with
  | EmptyString => EmptyString
  | String c s' =>
      match trimEnd s' with
      | EmptyString => if isWhiteSpace c then EmptyString else String c EmptyString
      | r => String c r
      end
  end.

(** [s.trim()] *)
Definition trim (s : string) : string := trimEnd (trimStart s).

(** [s.slice(1)]: the string without its first code unit. *)
Definition slice1 (s : string) : string :=
  match s with
  | EmptyString => EmptyString
  | String _ s' => s'
  end.

(** Truthiness of a string: only the empty string is falsy. *)
Definition truthy (s : string) : bool := negb (s =? "")%string.

(** [`${n}`] for an integral number: its decimal notation. *)
Definition dec (n : Z) : string := NilEmpty.string_of_int (Z.to_int n).

(** [arr.includes(x)] on an array of strings. *)
Definition includes (arr : list string) (x : string) : bool :=
  existsb (fun t => (t =? x)%string) arr.

(** The code unit [c] occurs in [s]. *)
Fixpoint has (c : ascii) (s : string) : bool :=
  match s with
  | EmptyString => false
  | String c' s' => Ascii.eqb c' c || has c s'
  end.

(** [s] occurs inside [t]. *)
Definition occurs_in (s t : string) : Prop :=
  exists pre post, t = pre ++ s ++ post.

(** Error values: the [name] and the [message] of an [Error] object. *)
Record JsError : Type := { name : string; message : string }.

(** [new Error(msg)] *)
Definition Error (msg : string) : JsError := {| name := "Error"; message := msg |}.

(** The state a promise ends in; [Pending] is a promise that never settles. *)
Inductive Outcome (A : Type) : Type :=
| Fulfilled (a : A)
| RejectedWith (e : JsError)
| Pending.
Arguments Fulfilled {A} a.
Arguments RejectedWith {A} e.
Arguments Pending {A}.

(** [await p; k] *)
Definition bind {A B : Type} (p : Outcome A) (k : A -> Outcome B) : Outcome B :=
  match p with
  | Fulfilled a => k a
  | RejectedWith e => RejectedWith e
  | Pending => Pending
  end.

Notation "x <- p ;; k" := (bind p (fun x => k))
  (at level 61, p at next level, right associativity).

(** [p.catch(h)] *)
Definition catch {A : Type} (p : Outcome A) (h : JsError -> A) : Outcome A :=
  match p with
  | Fulfilled a => Fulfilled a
  | RejectedWith e => Fulfilled (h e)
  | Pending => Pending
  end.

(** ** Messages *)

Module Msg.

Record Message : Type := {
  id : string;
  author : string;
  role : string;
  content : string;
  ts : Z;
  isLoading : bool   (* an absent flag is falsy *)
}.

(** [{ ...msg, id: v }] *)
Definition with_id (v : string) (msg : Message) : Message :=
  {| id := v; author := author msg; role := role msg;
     content := content msg; ts := ts msg; isLoading := isLoading msg |}.

End Msg.

(** ** The Web platform: timers, abort signals and [fetch]

    Times are milliseconds counted from the moment the API operation is
    called.  What the backend does with one request is an [Exchange]: when
    (if ever) the [fetch] promise would settle and with what, and when (if
    ever) the response body finishes arriving. *)

Module Platform.

(** The body of a response: its text and what [JSON.parse] makes of it
    (a [SyntaxError] or a decoded value of type [J]), a stream that breaks,
    or a stream that never ends. *)
Inductive Body (J : Type) : Type :=
| BodyArrives (doneAt : Z) (text : string) (parsed : JsError + J)
| BodyBreaks (failsAt : Z) (e : JsError)
| BodyStalls.
Arguments BodyArrives {J} doneAt text parsed.
Arguments BodyBreaks {J} failsAt e.
Arguments BodyStalls {J}.

Record Response (J : Type) : Type := { status : Z; body : Body J }.
Arguments status {J} r.
Arguments body {J} r.

(** [response.ok]: the status is in the range 200-299. *)
Definition ok {J : Type} (r : Response J) : bool :=
  (200 <=? status r) && (status r <=? 299).

Inductive FetchResult (J : Type) : Type :=
| Responds (r : Response J)
| NetworkError (e : JsError).
Arguments Responds {J} r.
Arguments NetworkError {J} e.

Inductive Exchange (J : Type) : Type :=
| Settles (settlesAt : Z) (r : FetchResult J)
| NeverSettles.
Arguments Settles {J} settlesAt r.
Arguments NeverSettles {J}.

(** An abort signal is the time at which [controller.abort()] runs, if it
    ever does. *)
Definition Signal : Type := option Z.

(** Something that completes at time [t] is cut off by the signal when
    the abort has run by then. *)
Definition aborted (signal : Signal) (t : Z) : bool :=
  match signal with
  | Some a => a <=? t
  | None => false
  end.

(** The delay [setTimeout(f, ms)] really waits for an integral [ms]: the
    argument is converted to a signed 32-bit integer and a negative result
    is replaced by 0. *)
Definition wrap32 (ms : Z) : Z := (ms + 2 ^ 31) mod 2 ^ 32 - 2 ^ 31.
Definition timer_delay (ms : Z) : Z := Z.max 0 (wrap32 ms).

Section Abort.

(** The message of the [AbortError] the browser rejects with. *)
Variable abortMessage : string.

Definition AbortError : JsError :=
  {| name := "AbortError"; message := abortMessage |}.

(** [fetch(url, { ..., signal })] *)
Definition fetch {J : Type} (signal : Signal) (x : Exchange J)
  : Outcome (Response J) :=
  match x with
  | Settles t r =>
      if aborted signal t then RejectedWith AbortError
      else match r with
           | Responds resp => Fulfilled resp
           | NetworkError e => RejectedWith e
           end
  | NeverSettles =>
      match signal with
      | Some _ => RejectedWith AbortError
      | None => Pending
      end
  end.

(** [response.text()] *)
Definition text {J : Type} (signal : Signal) (r : Response J)
  : Outcome string :=
  match body r with
  | BodyArrives t txt _ =>
      if aborted signal t then RejectedWith AbortError else Fulfilled txt
  | BodyBreaks t e =>
      if aborted signal t then RejectedWith AbortError else RejectedWith e
  | BodyStalls =>
      match signal with
      | Some _ => RejectedWith AbortError
      | None => Pending
      end
  end.

(** [response.json()] *)
Definition json {J : Type} (signal : Signal) (r : Response J)
  : Outcome J :=
  match body r with
  | BodyArrives t _ parsed =>
      if aborted signal t then RejectedWith AbortError
      else match parsed with
           | inl e => RejectedWith e
           | inr v => Fulfilled v
           end
  | BodyBreaks t e =>
      if aborted signal t then RejectedWith AbortError else RejectedWith e
  | BodyStalls =>
      match signal with
      | Some _ => RejectedWith AbortError
      | None => Pending
      end
  end.

End Abort.

End Platform.

(** ** The API client *)

Module Api.

Import Platform.

(** What the backend decodes to. *)
Record HistoryResponse : Type := { history : list Msg.Message }.

Record SendResponse : Type := {
  userMessageId : string;
  replies : list Msg.Message
}.

(** [JSON.stringify({ content, tags })], kept as the pair it serialises. *)
Record SendBody : Type := { content : string; tags : list string }.

Section Operations.

Variable abortMessage : string.

(** [getHistory()] *)
Definition getHistory (backend : Exchange HistoryResponse)
  : Outcome HistoryResponse :=
  response <- fetch abortMessage None backend ;;
  if negb (ok response)
  then RejectedWith (Error ("GET /history failed: " ++ dec (status response)))
  else json abortMessage None response.

(** [sendMessage(content, tags, timeoutMs = 60000)]; [timeoutMs] is
    [None] when the caller leaves the argument out.  The timer armed at
    the start aborts the controller's signal when it fires; the
    [finally] block disarms it.  On the success path [response.json()]
    is returned without being awaited, so the timer is disarmed as soon
    as the response is there and the body is read with a signal that
    never fires; on the failure path the body text is awaited while the
    timer is still armed. *)
Definition sendMessage (content : string) (tags : list string)
    (timeoutMs : option Z) (backend : SendBody -> Exchange SendResponse)
  : Outcome SendResponse :=
  let timeoutMs := match timeoutMs with Some ms => ms | None => 60000 end in
  let armed : Signal := Some (timer_delay timeoutMs) in
  let disarmed : Signal := None in
  response <- fetch abortMessage armed
                (backend {| content := content; tags := tags |}) ;;
  if negb (ok response) then
    text <- catch (text abortMessage armed response) (fun _ => "") ;;
    RejectedWith
      (Error ("POST /send failed: " ++ dec (status response) ++ " " ++ text))
  else json abortMessage disarmed response.

(** [resetChat()]; [J] is whatever the reset endpoint's body decodes to. *)
Definition resetChat {J : Type} (backend : Exchange J) : Outcome J :=
  response <- fetch abortMessage None backend ;;
  if negb (ok response)
  then RejectedWith (Error ("POST /reset failed: " ++ dec (status response)))
  else json abortMessage None response.

End Operations.

End Api.

(** ** The conversation view *)

Module App.

(** The five [useState] cells of the component. *)
Record State : Type := {
  history : list Msg.Message;
  content : string;
  selectedTags : list string;
  isLoading : bool;
  error : option string
}.

(** A call of one of the state setters.  [SetHistory] and
    [SetSelectedTags] carry the updater applied to the value current when
    the update is processed; a setter called with a plain value carries
    the constant updater. *)
Inductive Setter : Type :=
| SetHistory (f : list Msg.Message -> list Msg.Message)
| SetContent (v : string)
| SetSelectedTags (f : list string -> list string)
| SetIsLoading (v : bool)
| SetError (v : option string).

Definition apply (s : State) (u : Setter) : State :=
  match u with
  | SetHistory f =>
      {| history := f (history s); content := content s;
         selectedTags := selectedTags s; isLoading := isLoading s;
         error := error s |}
  | SetContent v =>
      {| history := history s; content := v;
         selectedTags := selectedTags s; isLoading := isLoading s;
         error := error s |}
  | SetSelectedTags f =>
      {| history := history s; content := content s;
         selectedTags := f (selectedTags s); isLoading := isLoading s;
         error := error s |}
  | SetIsLoading v =>
      {| history := history s; content := content s;
         selectedTags := selectedTags s; isLoading := v;
         error := error s |}
  | SetError v =>
      {| history := history s; content := content s;
         selectedTags := selectedTags s; isLoading := isLoading s;
         error := v |}
  end.

(** The state once every setter call of a handler has been processed. *)
Definition run (us : list Setter) (s : State) : State := fold_left apply us s.

(** Every state an observer could see while the calls are processed one
    by one, the first and the last included. *)
Fixpoint observable (us : list Setter) (s : State) : list State :=
  match us with
  | [] => [s]
  | u :: us' => s :: observable us' (apply s u)
  end.

(** How many of the calls update the message sequence. *)
Definition history_updates (us : list Setter) : nat :=
  List.length (filter (fun u => match u with SetHistory _ => true | _ => false end) us).

(** *** Tag selection *)

(** The updater [toggleTag] hands to [setSelectedTags]. *)
Definition toggle (tag : string) (prev : list string) : list string :=
  if includes prev tag
  then filter (fun t => negb (t =? tag)%string) prev
  else prev ++ [tag].

Definition toggleTag (tag : string) : list Setter := [SetSelectedTags (toggle tag)].

Definition clearSelectedTags : list Setter := [SetSelectedTags (fun _ => [])].

(** *** The send flow *)

(** The successive readings of [Date.now()] during one run of the
    handler: [now k] is what the k-th call returns. *)
Definition Clock : Type := nat -> Z.

(** Wall-clock time that is not set back while the handler runs. *)
Definition steady (now : Clock) : Prop :=
  forall i j : nat, (i <= j)%nat -> now i <= now j.

(** The guard at the top of [handleSend]. *)
Definition blocked (s : State) : bool :=
  negb (truthy (trim (content s)))
  || (List.length (selectedTags s) =? 0)%nat
  || isLoading s.

(** [`temp_${Date.now()}`], the first reading of the clock. *)
Definition tempUserMessageId (now : Clock) : string := "temp_" ++ dec (now 0%nat).

(** The optimistic user message; its [ts] is the second reading. *)
Definition userMessage (now : Clock) (messageContent : string) : Msg.Message :=
  {| Msg.id := tempUserMessageId now;
     Msg.author := "user";
     Msg.role := "user";
     Msg.content := messageContent;
     Msg.ts := now 1%nat;
     Msg.isLoading := false |}.

(** The placeholder built by the callback of [tagsToSend.map] at [index];
    each call of the callback reads the clock twice, for [id] and then
    for [ts]. *)
Definition loadingMessage (now : Clock) (index : nat) (tag : string) : Msg.Message :=
  {| Msg.id := "loading_" ++ dec (now (2 + 2 * index)%nat) ++ "_" ++ dec (Z.of_nat index);
     Msg.author := slice1 tag;
     Msg.role := "assistant";
     Msg.content := "Thinking...";
     Msg.ts := now (3 + 2 * index)%nat + Z.of_nat index + 1;
     Msg.isLoading := true |}.

(** [arr.map((x, index) => f(index, x))], counting from [index]. *)
Fixpoint mapi_from {A B : Type} (f : nat -> A -> B) (index : nat) (arr : list A) : list B :=
  match arr with
  | [] => []
  | x :: arr' => f index x :: mapi_from f (S index) arr'
  end.

Definition loadingMessages (now : Clock) (tagsToSend : list string) : list Msg.Message :=
  mapi_from (loadingMessage now) 0%nat tagsToSend.

(** The updater of the optimistic append. *)
Definition appendOptimistic (now : Clock) (messageContent : string)
    (tagsToSend : list string) (prev : list Msg.Message) : list Msg.Message :=
  prev ++ userMessage now messageContent :: loadingMessages now tagsToSend.

(** The updater of the success path. *)
Definition reconcile (tempId : string) (response : Api.SendResponse)
    (prev : list Msg.Message) : list Msg.Message :=
  let withoutLoading := filter (fun msg => negb (Msg.isLoading msg)) prev in
  let updatedHistory :=
    map (fun msg => if (Msg.id msg =? tempId)%string
                    then Msg.with_id (Api.userMessageId response) msg
                    else msg) withoutLoading in
  updatedHistory ++ Api.replies response.

(** The updater of the failure path. *)
Definition dropLoading (prev : list Msg.Message) : list Msg.Message :=
  filter (fun msg => negb (Msg.isLoading msg)) prev.

(** The call of [sendMessage] the handler makes. *)
Record SendCall : Type := {
  callContent : string;
  callTags : list string;
  callTimeoutMs : option Z
}.

(** What is left of the handler after [await sendMessage(...)]. *)
Record Continuation : Type := { call : SendCall; tempId : string }.

(** [handleSend] up to the [await]: the setter calls made, and the
    pending call with what the rest of the handler still needs; [None]
    when the guard returns at once. *)
Definition handleSend_begin (now : Clock) (s : State)
  : list Setter * option Continuation :=
  if blocked s then ([], None)
  else
    let messageContent := trim (content s) in
    let tagsToSend := selectedTags s in
    ([ SetHistory (appendOptimistic now messageContent tagsToSend);
       SetContent "";
       SetIsLoading true;
       SetError None ],
     Some {| call := {| callContent := messageContent;
                        callTags := tagsToSend;
                        callTimeoutMs := None |};
             tempId := tempUserMessageId now |}).

(** [handleSend] from the [await] on: [try] body, [catch] and [finally].
    A call that never settles leaves the handler suspended. *)
Definition handleSend_resume (k : Continuation) (result : Outcome Api.SendResponse)
  : list Setter :=
  match result with
  | Fulfilled response =>
      [ SetHistory (reconcile (tempId k) response); SetIsLoading false ]
  | RejectedWith err =>
      [ SetError (Some ("Failed to send message: " ++ message err));
        SetHistory dropLoading;
        SetIsLoading false ]
  | Pending => []
  end.

(** One whole run of [handleSend] with no other event in between. *)
Definition handleSend (abortMessage : string) (now : Clock)
    (backend : Api.SendBody -> Platform.Exchange Api.SendResponse) (s : State) : State :=
  match handleSend_begin now s with
  | (us, None) => run us s
  | (us, Some k) =>
      let result :=
        Api.sendMessage abortMessage (callContent (call k)) (callTags (call k))
          (callTimeoutMs (call k)) backend in
      run (handleSend_resume k result) (run us s)
  end.

(** *** The reset flow *)

(** [handleReset] after [await resetChat()]. *)
Definition handleReset_resume {J : Type} (result : Outcome J) : list Setter :=
  match result with
  | Fulfilled _ => [ SetHistory (fun _ => []); SetError None ]
  | RejectedWith err => [ SetError (Some ("Failed to reset chat: " ++ message err)) ]
  | Pending => []
  end.

Definition handleReset {J : Type} (abortMessage : string)
    (backend : Platform.Exchange J) (s : State) : State :=
  run (handleReset_resume (Api.resetChat abortMessage backend)) s.

End App.

(** ** Sample inputs *)

Module Sample.

Import Platform App.

(** A clock that advances by one millisecond at each reading. *)
Definition clock : Clock := fun k => 1700000000000 + Z.of_nat k.

(** The composer text "  hi  " with the selection "@gpt". *)
Definition hi_state : State :=
  {| history := []; content := "  hi  "; selectedTags := ["@gpt"];
     isLoading := false; error := None |}.

(** A composer holding blanks only. *)
Definition blank_state : State :=
  {| history := []; content := "   "; selectedTags := ["@gpt"];
     isLoading := false; error := None |}.

(** The view while the send of [hi_state] is pending. *)
Definition pending_state : State := run (fst (handleSend_begin clock hi_state)) hi_state.

Definition pending_send : Continuation :=
  {| call := {| callContent := "hi"; callTags := ["@gpt"]; callTimeoutMs := None |};
     tempId := tempUserMessageId clock |}.

Definition R1 : Msg.Message :=
  {| Msg.id := "m2"; Msg.author := "gpt"; Msg.role := "assistant";
     Msg.content := "hello"; Msg.ts := 1700000000900; Msg.isLoading := false |}.

Definition R2 : Msg.Message :=
  {| Msg.id := "m3"; Msg.author := "claude"; Msg.role := "assistant";
     Msg.content := "hello too"; Msg.ts := 1700000000950; Msg.isLoading := false |}.

Definition two_replies : Api.SendResponse :=
  {| Api.userMessageId := "m1"; Api.replies := [R1; R2] |}.

(** A backend that answers Send Message after 70 seconds. *)
Definition slow_backend (_ : Api.SendBody) : Exchange Api.SendResponse :=
  Settles 70000
    (Responds {| status := 200;
                 body := BodyArrives 70005 "{}" (inr two_replies) |}).

(** A backend that answers Send Message with status 500 and the body "boom". *)
Definition broken_backend (_ : Api.SendBody) : Exchange Api.SendResponse :=
  Settles 10
    (Responds {| status := 500;
                 body := BodyArrives 20 "boom" (inl {| name := "SyntaxError";
                                                      message := "Unexpected token" |}) |}).

(** A reset answered with status 200 and an empty body, which is no JSON. *)
Definition empty_ok : Response unit :=
  {| status := 200;
     body := BodyArrives 5 "" (inl {| name := "SyntaxError";
                                      message := "Unexpected end of JSON input" |}) |}.

Definition chatting_state : State :=
  {| history := [R1; R2]; content := ""; selectedTags := [];
     isLoading := false; error := None |}.

End Sample.

(** ** The rest of the view: startup, keyboard, display helpers *)

Module View.

Import App.

(** The state the component mounts with. *)
Definition initial : State :=
  {| history := []; content := ""; selectedTags := [];
     isLoading := false; error := None |}.

(** [loadHistory] after [await getHistory()]. *)
Definition loadHistory_resume (result : Outcome Api.HistoryResponse) : list Setter :=
  match result with
  | Fulfilled response => [ SetHistory (fun _ => Api.history response) ]
  | RejectedWith err => [ SetError (Some ("Failed to load history: " ++ message err)) ]
  | Pending => []
  end.

Definition loadHistory (abortMessage : string)
    (backend : Platform.Exchange Api.HistoryResponse) (s : State) : State :=
  run (loadHistory_resume (Api.getHistory abortMessage backend)) s.

(** The fields of a keyboard event [handleKeyPress] reads. *)
Record KeyEvent : Type := { key : string; metaKey : bool; ctrlKey : bool }.

(** [handleKeyPress(e)], up to the [await] inside [handleSend]. *)
Definition handleKeyPress (e : KeyEvent) (now : Clock) (s : State)
  : list Setter * option Continuation :=
  if (key e =? "Enter")%string && (metaKey e || ctrlKey e)
  then handleSend_begin now s
  else ([], None).

(** [getAuthorColor(author)] *)
Definition getAuthorColor (author : string) : string :=
  if (author =? "user")%string then
    "bg-blue-100 text-blue-900 dark:bg-blue-900 dark:text-blue-100"
  else if (author =? "gpt")%string then
    "bg-green-100 text-green-900 dark:bg-green-900 dark:text-green-100"
  else if (author =? "claude")%string then
    "bg-purple-100 text-purple-900 dark:bg-purple-900 dark:text-purple-100"
  else
    "bg-gray-100 text-gray-900 dark:bg-gray-800 dark:text-gray-100".

(** [getAuthorName(author)] *)
Definition getAuthorName (author : string) : string :=
  if (author =? "user")%string then "You"
  else if (author =? "gpt")%string then "GPT"
  else if (author =? "claude")%string then "Claude"
  else author.

(** [isErrorMessage(content)]: [content.startsWith("(error from")]. *)
Definition isErrorMessage (content : string) : bool :=
  String.prefix "(error from" content.

(** *** The component as an event loop

    Each event is handled on the state as it stands then.  A settled
    promise is handled by the rest of the handler that awaited it; the
    calls of [sendMessage] still awaited are kept oldest first. *)

Inductive Event : Type :=
| Typed (v : string)                                   (* [onChange] of the textarea *)
| TagClicked (tag : string)                            (* a tag button *)
| ClearClicked                                         (* "Clear selection" *)
| SendClicked (now : Clock)                            (* the send button *)
| KeyPressed (e : KeyEvent) (now : Clock)              (* [onKeyDown] of the textarea *)
| SendSettled (result : Outcome Api.SendResponse)      (* the oldest awaited send settles *)
| ResetSettled (result : Outcome unit)                 (* an awaited [resetChat()] settles *)
| HistorySettled (result : Outcome Api.HistoryResponse). (* the awaited [getHistory()] settles *)

Record World : Type := { view : State; awaited : list Continuation }.

Definition started (w : World) (r : list Setter * option Continuation) : World :=
  {| view := run (fst r) (view w);
     awaited := (awaited w ++ match snd r with Some k => [k] | None => [] end)%list |}.

Definition step (w : World) (e : Event) : World :=
  match e with
  | Typed v => {| view := run [SetContent v] (view w); awaited := awaited w |}
  | TagClicked tag => {| view := run (toggleTag tag) (view w); awaited := awaited w |}
  | ClearClicked => {| view := run clearSelectedTags (view w); awaited := awaited w |}
  | SendClicked now => started w (handleSend_begin now (view w))
  | KeyPressed e now => started w (handleKeyPress e now (view w))
  | SendSettled result =>
      match awaited w, result with
      | [], _ => w
      | _, Pending => w
      | k :: rest, _ =>
          {| view := run (handleSend_resume k result) (view w); awaited := rest |}
      end
  | ResetSettled result =>
      {| view := run (handleReset_resume result) (view w); awaited := awaited w |}
  | HistorySettled result =>
      {| view := run (loadHistory_resume result) (view w); awaited := awaited w |}
  end.

Definition play (events : list Event) : World :=
  fold_left step events {| view := initial; awaited := [] |}.

(** The messages an event brings from the server carry no loading flag. *)
Definition from_server_unflagged (e : Event) : Prop :=
  match e with
  | SendSettled (Fulfilled response) =>
      Forall (fun msg => Msg.isLoading msg = false) (Api.replies response)
  | HistorySettled (Fulfilled response) =>
      Forall (fun msg => Msg.isLoading msg = false) (Api.history response)
  | _ => True
  end.

End View.

(** ** Predicates on strings used in the statements *)

(** Every code unit of [s] is white space. *)
Fixpoint blank (s : string) : bool :=
  match s with
  | EmptyString => true
  | String c s' => isWhiteSpace c && blank s'
  end.

(** The first and the last code unit of [s]. *)
Definition first_unit (s : string) : option ascii :=
  match s with
  | EmptyString => None
  | String c _ => Some c
  end.

Fixpoint last_unit (s : string) : option ascii :=
  match s with
  | EmptyString => None
  | String c s' => match last_unit s' with
                   | None => Some c
                   | Some l => Some l
                   end
  end.

(** What the entries of a sequence hold apart from their ids. *)
Definition apart_from_id (msg : Msg.Message) : string * string * string * Z * bool :=
  (Msg.author msg, Msg.role msg, Msg.content msg, Msg.ts msg, Msg.isLoading msg).

(** ** Invariants of the event loop *)

Module Invariant.

Import App View.

(** The in-flight flag says exactly whether a send is awaited, and one at
    most is. *)
Definition single_flight (w : World) : Prop :=
  (isLoading (view w) = false /\ awaited w = []) \/
  (isLoading (view w) = true /\ exists k, awaited w = [k]).

(** No placeholder is on display while no send is in flight. *)
Definition idle_clean (s : State) : Prop :=
  isLoading s = false -> Forall (fun msg => Msg.isLoading msg = false) (history s).

End Invariant.

(** ** More sample inputs *)

Module Scenario.

Import Platform App View.

(** A backend that answers Send Message after 120 ms with the two replies,
    the body taking 90 seconds. *)
Definition quick : Response Api.SendResponse :=
  {| status := 200; body := BodyArrives 90000 "{}" (inr Sample.two_replies) |}.

Definition quick_backend (_ : Api.SendBody) : Exchange Api.SendResponse :=
  Settles 120 (Responds quick).

(** A backend whose success response never finishes its body. *)
Definition stalling : Response Api.SendResponse :=
  {| status := 200; body := BodyStalls |}.

Definition stalling_backend (_ : Api.SendBody) : Exchange Api.SendResponse :=
  Settles 120 (Responds stalling).

(** Error responses of the three endpoints. *)
Definition send_500 : Response Api.SendResponse :=
  {| status := 500;
     body := BodyArrives 20 "boom" (inl {| name := "SyntaxError";
                                          message := "Unexpected token" |}) |}.

Definition reset_503 : Response unit :=
  {| status := 503; body := BodyArrives 20 "down" (inr tt) |}.

Definition history_404 : Response Api.HistoryResponse :=
  {| status := 404; body := BodyStalls |}.

(** Type "hi", pick "@gpt", send, and get the two replies. *)
Definition one_exchange : list Event :=
  [ Typed "  hi  "; TagClicked "@gpt"; SendClicked Sample.clock;
    SendSettled (Fulfilled Sample.two_replies) ].

(** "  hi  " addressed to both participants. *)
Definition two_tag_state : State :=
  {| history := []; content := "  hi  "; selectedTags := ["@gpt"; "@claude"];
     isLoading := false; error := None |}.

(** A wall clock set back by ten seconds after the handler's second
    reading. *)
Definition set_back_clock : Clock :=
  fun k => if (k <=? 1)%nat then 1700000000000 else 1699999990000.

End Scenario.

(** ** Facts about strings and decimal notation *)

Section StringFacts.

Lemma append_inv_head (p a b : string) : p ++ a = p ++ b -> a = b.
Proof.
  induction p as [|c p IH]; simpl; intros H; [exact H|].
  injection H as H. auto.
Qed.

Lemma append_assoc (a b c : string) : (a ++ b) ++ c = a ++ (b ++ c).
Proof. induction a as [|x a IH]; simpl; [reflexivity|now rewrite IH]. Qed.

Lemma split_at_first (c : ascii) (a a' b b' : string) :
  has c a = false -> has c a' = false ->
  a ++ String c b = a' ++ String c b' -> a = a' /\ b = b'.
Proof.
  revert a'. induction a as [|x a IH]; intros [|x' a'] Ha Ha' H; simpl in *.
  - injection H as H. auto.
  - injection H as Hx H. subst x'. rewrite Ascii.eqb_refl in Ha'. discriminate.
  - injection H as Hx H. subst x. rewrite Ascii.eqb_refl in Ha. discriminate.
  - injection H as Hx H. subst x'.
    apply orb_false_iff in Ha as [_ Ha]. apply orb_false_iff in Ha' as [_ Ha'].
    destruct (IH a' Ha Ha' H) as [-> ->]. auto.
Qed.

Lemma uint_no_underscore (d : uint) : has "_" (NilEmpty.string_of_uint d) = false.
Proof. induction d; simpl; auto. Qed.

Lemma dec_no_underscore (n : Z) : has "_" (dec n) = false.
Proof.
  unfold dec. destruct (Z.to_int n); simpl; apply uint_no_underscore.
Qed.

Lemma dec_inj (x y : Z) : dec x = dec y -> x = y.
Proof.
  unfold dec. intros H. apply DecimalZ.to_int_inj.
  assert (E : Some (Z.to_int x) = Some (Z.to_int y)).
  { rewrite <- (NilEmpty.isi (Z.to_int x)), <- (NilEmpty.isi (Z.to_int y)).
    now rewrite H. }
  now injection E.
Qed.

Lemma occurs_in_middle (pre s post : string) : occurs_in s (pre ++ s ++ post).
Proof. now exists pre, post. Qed.

Lemma occurs_in_tail (pre s : string) : occurs_in s (pre ++ s).
Proof.
  exists pre, "". f_equal. induction s as [|c s IH]; simpl; [reflexivity|now rewrite <- IH].
Qed.

End StringFacts.

(** ** Facts about the setter calls *)

Module AppFacts.

Import App.

Lemma run_cons (u : Setter) (us : list Setter) (s : State) :
  run (u :: us) s = run us (apply s u).
Proof. reflexivity. Qed.

Lemma run_app (us vs : list Setter) (s : State) :
  run (us ++ vs) s = run vs (run us s).
Proof. unfold run. apply fold_left_app. Qed.

(** *** The synthesized placeholders *)

Section Placeholders.

Variable now : Clock.

Lemma mapi_from_length {A B : Type} (f : nat -> A -> B) (k : nat) (arr : list A) :
  List.length (mapi_from f k arr) = List.length arr.
Proof. revert k. induction arr as [|x arr IH]; intros k; simpl; auto. Qed.

Lemma mapi_from_nth {A B : Type} (f : nat -> A -> B) (arr : list A) :
  forall (k i : nat) (y : B),
    nth_error (mapi_from f k arr) i = Some y ->
    exists x, nth_error arr i = Some x /\ y = f (k + i)%nat x.
Proof.
  induction arr as [|x arr IH]; intros k i y H.
  - destruct i; discriminate.
  - destruct i as [|i]; simpl in H.
    + injection H as <-. exists x. rewrite Nat.add_0_r. auto.
    + destruct (IH _ _ _ H) as (x' & Hx & ->). exists x'.
      rewrite Nat.add_succ_r. auto.
Qed.

Lemma mapi_from_In {A B : Type} (f : nat -> A -> B) (arr : list A) (k : nat) (y : B) :
  In y (mapi_from f k arr) ->
  exists i x, (k <= i)%nat /\ In x arr /\ y = f i x.
Proof.
  intros H. apply In_nth_error in H as [i H].
  destruct (mapi_from_nth _ _ _ _ _ H) as (x & Hx & ->).
  exists (k + i)%nat, x. split; [lia|]. split; [|reflexivity].
  eapply nth_error_In; eauto.
Qed.

Lemma loading_flagged (k : nat) (tags : list string) :
  Forall (fun p => Msg.isLoading p = true) (mapi_from (loadingMessage now) k tags).
Proof. revert k. induction tags as [|t tags IH]; intros k; simpl; constructor; auto. Qed.

Lemma loading_authors (k : nat) (tags : list string) :
  map Msg.author (mapi_from (loadingMessage now) k tags) = map slice1 tags.
Proof. revert k. induction tags as [|t tags IH]; intros k; simpl; f_equal; auto. Qed.

Lemma loading_roles (k : nat) (tags : list string) :
  Forall (fun p => Msg.role p = "assistant") (mapi_from (loadingMessage now) k tags).
Proof. revert k. induction tags as [|t tags IH]; intros k; simpl; constructor; auto. Qed.

Lemma loading_id_index (i j : nat) (t t' : string) :
  Msg.id (loadingMessage now i t) = Msg.id (loadingMessage now j t') -> i = j.
Proof.
  simpl. intros H. injection H as H.
  apply split_at_first in H as [_ H]; try apply dec_no_underscore.
  apply dec_inj in H. lia.
Qed.

Lemma loading_id_not_temp (i : nat) (t : string) :
  (Msg.id (loadingMessage now i t) =? tempUserMessageId now)%string = false.
Proof. reflexivity. Qed.

Lemma loading_ids_nodup (k : nat) (tags : list string) :
  NoDup (map Msg.id (mapi_from (loadingMessage now) k tags)).
Proof.
  revert k. induction tags as [|t tags IH]; intros k; [constructor|].
  change (NoDup (Msg.id (loadingMessage now k t)
                   :: map Msg.id (mapi_from (loadingMessage now) (S k) tags))).
  constructor; [|apply IH].
  intros Hin. apply in_map_iff in Hin as (p & Hid & Hp).
  apply mapi_from_In in Hp as (i & x & Hle & _ & ->).
  apply loading_id_index in Hid. lia.
Qed.

Lemma dropLoading_placeholders (k : nat) (tags : list string) :
  dropLoading (mapi_from (loadingMessage now) k tags) = [].
Proof. revert k. induction tags as [|t tags IH]; intros k; simpl; auto. Qed.

Hypothesis Hsteady : steady now.

Lemma loading_ts_after_user (k : nat) (tags : list string) (c : string) :
  Forall (fun p => Msg.ts (userMessage now c) < Msg.ts p)
         (mapi_from (loadingMessage now) k tags).
Proof.
  apply Forall_forall. intros p Hp.
  apply mapi_from_In in Hp as (i & x & _ & _ & ->). simpl.
  assert (now 1%nat <= now (S (S (S (i + (i + 0)))))) by (apply Hsteady; lia).
  lia.
Qed.

Lemma loading_ts_increasing (k : nat) (tags : list string) :
  StronglySorted Z.lt (map Msg.ts (mapi_from (loadingMessage now) k tags)).
Proof.
  revert k. induction tags as [|t tags IH]; intros k; simpl; constructor; auto.
  apply Forall_forall. intros z Hz.
  apply in_map_iff in Hz as (p & <- & Hp).
  apply mapi_from_In in Hp as (i & x & Hle & _ & ->). simpl.
  assert (now (S (S (S (k + (k + 0))))) <= now (S (S (S (i + (i + 0))))))
    by (apply Hsteady; lia).
  lia.
Qed.

End Placeholders.

End AppFacts.

(** ** Tag selection *)

Section Toggle.

Import App.

Local Abbreviation other_than tag := (fun t : string => negb (t =? tag)%string).

Lemma includes_In (sel : list string) (tag : string) :
  includes sel tag = true <-> In tag sel.
Proof.
  unfold includes. rewrite existsb_exists. split.
  - intros (t & Ht & E). apply String.eqb_eq in E. now subst.
  - intros H. exists tag. split; [exact H|apply String.eqb_refl].
Qed.

Lemma includes_false (sel : list string) (tag : string) :
  includes sel tag = false <-> ~ In tag sel.
Proof.
  rewrite <- includes_In. destruct (includes sel tag); split; congruence.
Qed.

Lemma remove_absent (sel : list string) (tag : string) :
  ~ In tag sel -> filter (other_than tag) sel = sel.
Proof.
  induction sel as [|t sel IH]; simpl; intros H; [reflexivity|].
  destruct (String.eqb_spec t tag) as [->|Hne]; simpl.
  - exfalso. apply H. now left.
  - f_equal. apply IH. intros Hin. apply H. now right.
Qed.

Lemma remove_gone (sel : list string) (tag : string) :
  ~ In tag (filter (other_than tag) sel).
Proof.
  intros H. apply filter_In in H as [_ H]. now rewrite String.eqb_refl in H.
Qed.

Lemma remove_appended (sel : list string) (tag : string) :
  filter (other_than tag) (sel ++ [tag])%list = filter (other_than tag) sel.
Proof.
  rewrite filter_app. simpl. rewrite String.eqb_refl. simpl. apply app_nil_r.
Qed.

Lemma remove_idempotent (sel : list string) (tag : string) :
  filter (other_than tag) (filter (other_than tag) sel) = filter (other_than tag) sel.
Proof. apply remove_absent, remove_gone. Qed.

Lemma toggle_twice (tag : string) (sel : list string) :
  toggle tag (toggle tag sel)
  = if includes sel tag then (filter (other_than tag) sel ++ [tag])%list else sel.
Proof.
  unfold toggle at 2. destruct (includes sel tag) eqn:E.
  - unfold toggle.
    replace (includes (filter (other_than tag) sel) tag) with false; [reflexivity|].
    symmetry. apply includes_false, remove_gone.
  - unfold toggle.
    replace (includes (sel ++ [tag])%list tag) with true.
    + rewrite remove_appended. apply remove_absent. now apply includes_false.
    + symmetry. apply includes_In, in_or_app. right. now left.
Qed.

(** C9 (as amended): toggling a tag appends it at the end of the selection
    when it is absent and removes it when it is present, the other tags
    keeping their relative order; toggling an absent tag twice gives the
    selection back, toggling a present tag twice moves it to the end; and
    toggling two distinct absent tags lists them in the order toggled. *)
Theorem toggle_selection (tag : string) (sel : list string) :
  (includes sel tag = false -> toggle tag sel = (sel ++ [tag])%list) /\
  (includes sel tag = true ->
     toggle tag sel = filter (other_than tag) sel /\ ~ In tag (toggle tag sel)) /\
  filter (other_than tag) (toggle tag sel) = filter (other_than tag) sel /\
  toggle tag (toggle tag sel)
    = (if includes sel tag then (filter (other_than tag) sel ++ [tag])%list else sel) /\
  (forall other : string,
     other <> tag -> includes sel tag = false -> includes sel other = false ->
     toggle other (toggle tag sel) = (sel ++ [tag; other])%list).
Proof.
  repeat split.
  - unfold toggle. now intros ->.
  - unfold toggle. now rewrite H.
  - unfold toggle. rewrite H. apply remove_gone.
  - unfold toggle. destruct (includes sel tag).
    + apply remove_idempotent.
    + apply remove_appended.
  - apply toggle_twice.
  - intros other Hne Htag Hother. unfold toggle at 2. rewrite Htag.
    unfold toggle.
    replace (includes (sel ++ [tag])%list other) with false.
    + now rewrite <- app_assoc.
    + symmetry. apply includes_false. intros Hin.
      apply in_app_or in Hin as [Hin|[Hin|[]]].
      * now apply includes_false in Hother.
      * now apply Hne.
Qed.

(** C9 (as stated) fails: with the selection "@gpt", "@claude", toggling
    "@gpt" twice ends with "@claude", "@gpt". *)
Lemma toggle_twice_moves_present_tag :
  toggle "@gpt" (toggle "@gpt" ["@gpt"; "@claude"]) = ["@claude"; "@gpt"] /\
  toggle "@gpt" (toggle "@gpt" ["@gpt"; "@claude"]) <> ["@gpt"; "@claude"].
Proof. split; [reflexivity|discriminate]. Qed.

End Toggle.

(** ** The send flow: guard and optimistic append *)

Section SendBegin.

Import App AppFacts.

Lemma blocked_iff (s : State) :
  blocked s = true <->
  trim (content s) = "" \/ selectedTags s = [] \/ isLoading s = true.
Proof.
  unfold blocked, truthy. rewrite !orb_true_iff, negb_true_iff, negb_false_iff.
  rewrite String.eqb_eq, Nat.eqb_eq. split.
  - intros [[H|H]|H]; auto. right. left. now apply length_zero_iff_nil.
  - intros [H|[H|H]]; auto. left. right. now rewrite H.
Qed.

(** C4: when the trimmed composer text is empty, or no tag is selected, or
    a send is in flight, the send action calls no setter and issues no
    call of Send Message; the state is left as it was. *)
Theorem blocked_send_is_noop (now : Clock) (s : State)
    (H : trim (content s) = "" \/ selectedTags s = [] \/ isLoading s = true) :
  handleSend_begin now s = ([], None) /\
  run (fst (handleSend_begin now s)) s = s /\
  (forall abortMessage backend, handleSend abortMessage now backend s = s).
Proof.
  apply blocked_iff in H.
  assert (E : handleSend_begin now s = ([], None))
    by (unfold handleSend_begin; now rewrite H).
  split; [exact E|]. split.
  - now rewrite E.
  - intros abortMessage backend. unfold handleSend. now rewrite E.
Qed.

(** The text and the tags reach the backend as [sendMessage] got them: the
    operation looks at the backend's answer to that body and to no other. *)
Lemma sendMessage_transmits (abortMessage : string) (c : string)
    (tags : list string) (timeoutMs : option Z)
    (b1 b2 : Api.SendBody -> Platform.Exchange Api.SendResponse) :
  b1 {| Api.content := c; Api.tags := tags |}
    = b2 {| Api.content := c; Api.tags := tags |} ->
  Api.sendMessage abortMessage c tags timeoutMs b1
    = Api.sendMessage abortMessage c tags timeoutMs b2.
Proof. unfold Api.sendMessage. now intros ->. Qed.

(** C8: a send that passes the guard calls Send Message with the trimmed
    composer text and with the selection as it stands, in its order and
    with each tag's marker in place; the marker is dropped only in the
    [author] of the placeholders. *)
Theorem send_transmits_trimmed_text_and_tags (now : Clock) (s : State)
    (Hgo : blocked s = false) :
  exists us k,
    handleSend_begin now s = (us, Some k) /\
    callContent (call k) = trim (content s) /\
    callTags (call k) = selectedTags s /\
    callTimeoutMs (call k) = None /\
    map Msg.author (loadingMessages now (selectedTags s))
      = map slice1 (selectedTags s) /\
    (forall abortMessage backend,
       handleSend abortMessage now backend s
       = run (handleSend_resume k
                (Api.sendMessage abortMessage (trim (content s)) (selectedTags s)
                   None backend))
             (run us s)).
Proof.
  unfold handleSend, handleSend_begin. rewrite Hgo.
  eexists. eexists. split; [reflexivity|]. simpl.
  repeat split. apply loading_authors.
Qed.

Example trim_hi : trim "  hi  " = "hi".
Proof. reflexivity. Qed.

Example trim_keeps_inner_blanks : trim (" a b" ++ String (ascii_of_nat 10) "") = "a b".
Proof. reflexivity. Qed.

Example trim_blanks : trim "   " = "".
Proof. reflexivity. Qed.

Example hi_call (now : Clock) :
  snd (handleSend_begin now Sample.hi_state)
  = Some {| call := {| callContent := "hi"; callTags := ["@gpt"];
                       callTimeoutMs := None |};
            tempId := tempUserMessageId now |}.
Proof. reflexivity. Qed.

End SendBegin.

Section Optimistic.

Import App AppFacts.

(** C2 (as amended): a send that passes the guard with [n] selected tags
    appends, in one update of the sequence, one user-authored message
    followed by [n] loading-flagged placeholders, one per tag in selection
    order and attributed to the tag's participant; no observable state
    holds only part of the appended entries.  The user message's timestamp
    is the second reading of the clock and the placeholder at index [i]
    carries a later reading of its own plus [i + 1]: when the clock is not
    set back between the readings, every placeholder's timestamp is above
    the user message's and the placeholders' timestamps increase. *)
Theorem optimistic_append (now : Clock) (s : State)
    (Hgo : blocked s = false) :
  let us := fst (handleSend_begin now s) in
  let user := userMessage now (trim (content s)) in
  let placeholders := loadingMessages now (selectedTags s) in
  history (run us s) = (history s ++ user :: placeholders)%list /\
  history_updates us = 1%nat /\
  Forall (fun st => history st = history s \/
                    history st = (history s ++ user :: placeholders)%list)
         (observable us s) /\
  (Msg.author user = "user" /\ Msg.role user = "user" /\
   Msg.content user = trim (content s) /\ Msg.isLoading user = false) /\
  List.length placeholders = List.length (selectedTags s) /\
  Forall (fun p => Msg.isLoading p = true) placeholders /\
  Forall (fun p => Msg.role p = "assistant") placeholders /\
  map Msg.author placeholders = map slice1 (selectedTags s) /\
  Msg.ts user = now 1%nat /\
  (forall i p, nth_error placeholders i = Some p ->
     Msg.ts p = now (3 + 2 * i)%nat + Z.of_nat i + 1) /\
  (steady now ->
     Forall (fun p => Msg.ts user < Msg.ts p) placeholders /\
     StronglySorted Z.lt (map Msg.ts placeholders)).
Proof.
  intros us user placeholders. subst us.
  unfold handleSend_begin. rewrite Hgo. simpl.
  split; [reflexivity|]. split; [reflexivity|]. split.
  { repeat (apply Forall_cons; [simpl; auto|]). apply Forall_nil. }
  split; [now repeat split|].
  split; [apply mapi_from_length|].
  split; [apply loading_flagged|].
  split; [apply loading_roles|].
  split; [apply loading_authors|].
  split; [reflexivity|]. split.
  - intros i p Hp. apply mapi_from_nth in Hp as (tag & _ & ->). reflexivity.
  - intros Hclock. split.
    + exact (loading_ts_after_user now Hclock 0%nat (selectedTags s) (trim (content s))).
    + exact (loading_ts_increasing now Hclock 0%nat (selectedTags s)).
Qed.

(** C2 (as stated) fails when the clock is set back while the handler
    runs: the user message is stamped 1700000000000 and the two
    placeholders 1699999990001 and 1699999990002. *)
Lemma set_back_clock_breaks_timestamp_order :
  blocked Scenario.two_tag_state = false /\
  map Msg.ts
    (history (run (fst (handleSend_begin Scenario.set_back_clock Scenario.two_tag_state))
                  Scenario.two_tag_state))
  = [1700000000000; 1699999990001; 1699999990002] /\
  ~ Forall (fun p => Msg.ts (userMessage Scenario.set_back_clock "hi") < Msg.ts p)
           (loadingMessages Scenario.set_back_clock ["@gpt"; "@claude"]).
Proof.
  split; [reflexivity|]. split; [reflexivity|].
  intros H. inversion H as [|p l Hp _]. vm_compute in Hp. discriminate Hp.
Qed.

End Optimistic.

(** ** The send flow: reconciliation *)

Section Reconcile.

Import App AppFacts.

Local Abbreviation unflagged := (fun msg : Msg.Message => negb (Msg.isLoading msg)).

Local Abbreviation patch tempId response :=
  (fun msg : Msg.Message =>
     if (Msg.id msg =? tempId)%string
     then Msg.with_id (Api.userMessageId response) msg
     else msg).

Lemma prefix_append (p s : string) : String.prefix p (p ++ s) = true.
Proof.
  induction p as [|a p IH]; simpl.
  - now destruct s.
  - destruct (ascii_dec a a); [exact IH|congruence].
Qed.

Lemma patch_keeps_flag (t : string) (response : Api.SendResponse) (msg : Msg.Message) :
  Msg.isLoading (patch t response msg) = Msg.isLoading msg.
Proof. cbv beta. destruct (Msg.id msg =? t)%string; reflexivity. Qed.

Lemma dropLoading_unflagged (prev : list Msg.Message) :
  Forall (fun msg => Msg.isLoading msg = false) (dropLoading prev).
Proof.
  apply Forall_forall. intros msg H. apply filter_In in H as [_ H].
  now apply negb_true_iff.
Qed.

Lemma dropLoading_keeps (prev : list Msg.Message) (msg : Msg.Message) :
  In msg prev -> Msg.isLoading msg = false -> In msg (dropLoading prev).
Proof. intros Hin Hf. apply filter_In. split; [exact Hin|now rewrite Hf]. Qed.

Lemma dropLoading_after_append (now : Clock) (c : string) (tags : list string)
    (prev : list Msg.Message) :
  dropLoading (appendOptimistic now c tags prev)
  = (dropLoading prev ++ [userMessage now c])%list.
Proof.
  unfold appendOptimistic, dropLoading. rewrite filter_app. simpl.
  fold (dropLoading (loadingMessages now tags)).
  unfold loadingMessages. now rewrite dropLoading_placeholders.
Qed.

Lemma reconcile_unflagged (t : string) (response : Api.SendResponse)
    (prev : list Msg.Message) :
  Forall (fun r => Msg.isLoading r = false) (Api.replies response) ->
  Forall (fun msg => Msg.isLoading msg = false) (reconcile t response prev).
Proof.
  intros Hr. unfold reconcile. apply Forall_app. split; [|exact Hr].
  apply Forall_forall. intros msg H. apply in_map_iff in H as (m & <- & Hm).
  rewrite patch_keeps_flag. apply filter_In in Hm as [_ Hm].
  now apply negb_true_iff.
Qed.

Lemma reconcile_after_append (now : Clock) (c : string) (tags : list string)
    (response : Api.SendResponse) (prev : list Msg.Message) :
  reconcile (tempUserMessageId now) response (appendOptimistic now c tags prev)
  = (map (patch (tempUserMessageId now) response) (dropLoading prev)
     ++ Msg.with_id (Api.userMessageId response) (userMessage now c)
     :: Api.replies response)%list.
Proof.
  unfold reconcile.
  change (filter unflagged (appendOptimistic now c tags prev))
    with (dropLoading (appendOptimistic now c tags prev)).
  rewrite dropLoading_after_append, map_app, <- app_assoc. simpl.
  now rewrite String.eqb_refl.
Qed.

Lemma patch_other_ids (t : string) (response : Api.SendResponse)
    (l : list Msg.Message) :
  Forall (fun msg => Msg.id msg <> t) l -> map (patch t response) l = l.
Proof.
  induction 1 as [|msg l Hne _ IH]; simpl; [reflexivity|].
  rewrite IH. apply String.eqb_neq in Hne. now rewrite Hne.
Qed.

(** C10: the ids synthesized by one send are pairwise distinct, the user
    message's starts with "temp_" and the placeholder's at index [i] is
    "loading_", a clock reading, "_" and [i]; no placeholder has the
    temporary id, so among the entries the send appended the success
    path's replacement rewrites the user message and nothing else. *)
Theorem synthesized_ids_distinct (now : Clock) (messageContent : string)
    (tagsToSend : list string) :
  let user := userMessage now messageContent in
  let placeholders := loadingMessages now tagsToSend in
  NoDup (map Msg.id (user :: placeholders)) /\
  String.prefix "temp_" (Msg.id user) = true /\
  Forall (fun p => String.prefix "loading_" (Msg.id p) = true) placeholders /\
  (forall i p, nth_error placeholders i = Some p ->
     exists t, Msg.id p = "loading_" ++ dec t ++ "_" ++ dec (Z.of_nat i)) /\
  Forall (fun p => Msg.id p <> tempUserMessageId now) placeholders /\
  (forall response,
     map (patch (tempUserMessageId now) response) (user :: placeholders)
     = Msg.with_id (Api.userMessageId response) user :: placeholders) /\
  (forall response prev,
     Forall (fun msg => Msg.id msg <> tempUserMessageId now) prev ->
     reconcile (tempUserMessageId now) response
       (appendOptimistic now messageContent tagsToSend prev)
     = (dropLoading prev
        ++ Msg.with_id (Api.userMessageId response) user
        :: Api.replies response)%list).
Proof.
  intros user placeholders.
  assert (Hother : Forall (fun p => Msg.id p <> tempUserMessageId now) placeholders).
  { apply Forall_forall. intros p Hp.
    apply mapi_from_In in Hp as (i & x & _ & _ & ->). discriminate. }
  split.
  { simpl. constructor; [|apply loading_ids_nodup].
    intros Hin. apply in_map_iff in Hin as (p & Hid & Hp).
    rewrite Forall_forall in Hother. now apply (Hother p). }
  split; [apply prefix_append|]. split.
  { apply Forall_forall. intros p Hp.
    apply mapi_from_In in Hp as (i & x & _ & _ & ->). apply prefix_append. }
  split.
  { intros i p Hp. apply mapi_from_nth in Hp as (x & _ & ->).
    eexists. reflexivity. }
  split; [exact Hother|]. split.
  { intros response. simpl. rewrite String.eqb_refl. f_equal.
    now apply patch_other_ids. }
  intros response prev Hprev. rewrite reconcile_after_append.
  rewrite patch_other_ids; [reflexivity|].
  apply Forall_forall. intros msg Hmsg. apply filter_In in Hmsg as [Hmsg _].
  rewrite Forall_forall in Hprev. now apply Hprev.
Qed.

(** C1: when the call of Send Message succeeds, one update of the sequence
    drops every loading-flagged entry, gives the entries whose id is the
    temporary id the server-issued id (whatever their content), and puts
    the server's replies, in order, after the entries that remain; the
    replies carrying no loading flag, no entry of the sequence is
    loading-flagged afterwards. *)
Theorem successful_send (k : Continuation) (response : Api.SendResponse) (s : State)
    (Hreplies : Forall (fun r => Msg.isLoading r = false) (Api.replies response)) :
  let us := handleSend_resume k (Fulfilled response) in
  history (run us s)
    = (map (patch (tempId k) response) (filter unflagged (history s))
       ++ Api.replies response)%list /\
  history_updates us = 1%nat /\
  Forall (fun st => history st = history s \/ history st = history (run us s))
         (observable us s) /\
  (forall msg, In msg (history s) -> Msg.isLoading msg = false ->
     Msg.id msg <> tempId k -> In msg (history (run us s))) /\
  (forall msg, In msg (history s) -> Msg.isLoading msg = false ->
     Msg.id msg = tempId k ->
     In (Msg.with_id (Api.userMessageId response) msg) (history (run us s))) /\
  (forall now c tags prev,
     tempId k = tempUserMessageId now ->
     history s = appendOptimistic now c tags prev ->
     history (run us s)
     = (map (patch (tempId k) response) (dropLoading prev)
        ++ Msg.with_id (Api.userMessageId response) (userMessage now c)
        :: Api.replies response)%list) /\
  Forall (fun msg => Msg.isLoading msg = false) (history (run us s)).
Proof.
  intros us. subst us. simpl.
  split; [reflexivity|]. split; [reflexivity|]. split.
  { repeat (apply Forall_cons; [simpl; auto|]). apply Forall_nil. }
  split.
  { intros msg Hin Hf Hid. unfold reconcile. apply in_or_app. left.
    apply in_map_iff. exists msg. split.
    - apply String.eqb_neq in Hid. now rewrite Hid.
    - now apply dropLoading_keeps. }
  split.
  { intros msg Hin Hf Hid. unfold reconcile. apply in_or_app. left.
    apply in_map_iff. exists msg. split.
    - apply String.eqb_eq in Hid. now rewrite Hid.
    - now apply dropLoading_keeps. }
  split.
  { intros now c tags prev Hk Hs. rewrite Hk, Hs. apply reconcile_after_append. }
  now apply reconcile_unflagged.
Qed.

End Reconcile.

Section Failure.

Import App AppFacts.

Lemma nonempty_prefix (p s : string) : p <> "" -> p ++ s <> "".
Proof. destruct p; [congruence|discriminate]. Qed.

(** C3: when the call of Send Message fails with error [err], the handler
    drops every loading-flagged entry and keeps the others, the optimistic
    user message among them as it was, and sets the error to "Failed to
    send message: " followed by the error's message; the in-flight flag is
    false once the handler is through, after a failure and after a
    success alike. *)
Theorem failed_send (abortMessage : string) (now : Clock)
    (backend : Api.SendBody -> Platform.Exchange Api.SendResponse)
    (s : State) (err : JsError)
    (Hgo : blocked s = false)
    (Hfail : Api.sendMessage abortMessage (trim (content s)) (selectedTags s)
               None backend = RejectedWith err) :
  let s' := handleSend abortMessage now backend s in
  history s' = (dropLoading (history s) ++ [userMessage now (trim (content s))])%list /\
  Forall (fun msg => Msg.isLoading msg = false) (history s') /\
  error s' = Some ("Failed to send message: " ++ message err) /\
  "Failed to send message: " ++ message err <> "" /\
  occurs_in (message err) ("Failed to send message: " ++ message err) /\
  isLoading s' = false /\
  (forall k s1,
     let s2 := run (handleSend_resume k (RejectedWith err)) s1 in
     history s2 = dropLoading (history s1) /\
     (forall msg, In msg (history s1) -> Msg.isLoading msg = false ->
        In msg (history s2)) /\
     error s2 = Some ("Failed to send message: " ++ message err) /\
     isLoading s2 = false) /\
  (forall k response s1,
     isLoading (run (handleSend_resume k (Fulfilled response)) s1) = false).
Proof.
  intros s'. subst s'. unfold handleSend, handleSend_begin. rewrite Hgo.
  cbn [call callContent callTags callTimeoutMs]. rewrite Hfail.
  cbn [handleSend_resume run fold_left apply history error isLoading content
       selectedTags].
  split; [apply dropLoading_after_append|]. split.
  { apply dropLoading_unflagged. }
  split; [reflexivity|]. split; [discriminate|].
  split; [apply occurs_in_tail|]. split; [reflexivity|]. split.
  - intros k s1. cbn. repeat split. intros msg. apply dropLoading_keeps.
  - reflexivity.
Qed.

End Failure.

(** ** The API client *)

Section ApiClient.

Import Platform.

Lemma wrap32_below (ms : Z) : 0 <= ms -> wrap32 ms <= ms.
Proof.
  intros H. unfold wrap32.
  assert (E : (ms + 2 ^ 31) mod 2 ^ 32 <= ms + 2 ^ 31) by (apply Z.mod_le; lia).
  lia.
Qed.

Lemma timer_delay_below (ms : Z) : 0 <= ms -> timer_delay ms <= ms.
Proof. intros H. unfold timer_delay. pose proof (wrap32_below ms H). lia. Qed.

Lemma aborted_after_delay (ms t : Z) :
  0 <= ms -> ms <= t -> aborted (Some (timer_delay ms)) t = true.
Proof.
  intros H Ht. simpl. apply Z.leb_le. pose proof (timer_delay_below ms H). lia.
Qed.

(** The timer up to the response: [sendMessage] takes its timeout from
    the caller, 60000 ms when the caller gives none; when the [fetch]
    promise has not settled by the time the timeout has run, the call is
    rejected with the abort error. *)
Theorem sendMessage_timeout (abortMessage : string) (content : string)
    (tags : list string) (timeoutMs : Z)
    (backend : Api.SendBody -> Exchange Api.SendResponse)
    (Hms : 0 <= timeoutMs)
    (Hlate : forall t r,
        backend {| Api.content := content; Api.tags := tags |} = Settles t r ->
        timeoutMs <= t) :
  Api.sendMessage abortMessage content tags (Some timeoutMs) backend
    = RejectedWith (AbortError abortMessage) /\
  name (AbortError abortMessage) = "AbortError" /\
  (forall backend',
     Api.sendMessage abortMessage content tags None backend'
     = Api.sendMessage abortMessage content tags (Some 60000) backend').
Proof.
  split; [|split; reflexivity].
  unfold Api.sendMessage.
  destruct (backend _) as [t r|] eqn:E; [|reflexivity].
  unfold fetch. rewrite aborted_after_delay; [reflexivity|exact Hms|].
  now apply (Hlate t r).
Qed.

(** C7: when the response to Send Message comes back with a status that
    is not a success, the call is rejected with an error whose message
    holds the status code and the body text, the text being empty when
    the body cannot be read; the status error is the one reported either
    way. *)
Theorem sendMessage_http_failure (abortMessage : string) (content : string)
    (tags : list string) (timeoutMs : option Z)
    (backend : Api.SendBody -> Exchange Api.SendResponse)
    (t : Z) (r : Response Api.SendResponse)
    (Hresponse : backend {| Api.content := content; Api.tags := tags |}
                 = Settles t (Responds r))
    (Hintime : t < timer_delay (match timeoutMs with Some ms => ms | None => 60000 end))
    (Hstatus : ok r = false) :
  let signal := Some (timer_delay (match timeoutMs with Some ms => ms | None => 60000 end)) in
  exists text : string,
    Api.sendMessage abortMessage content tags timeoutMs backend
      = RejectedWith
          (Error ("POST /send failed: " ++ dec (status r) ++ " " ++ text)) /\
    occurs_in (dec (status r))
      ("POST /send failed: " ++ dec (status r) ++ " " ++ text) /\
    occurs_in text ("POST /send failed: " ++ dec (status r) ++ " " ++ text) /\
    (forall d txt parsed,
       body r = BodyArrives d txt parsed ->
       text = if aborted signal d then "" else txt) /\
    (forall d e, body r = BodyBreaks d e -> text = "") /\
    (body r = BodyStalls -> text = "").
Proof.
  intros signal.
  assert (Hfetch : fetch abortMessage signal
                     (backend {| Api.content := content; Api.tags := tags |})
                   = Fulfilled r).
  { rewrite Hresponse. unfold fetch.
    replace (aborted signal t) with false; [reflexivity|].
    symmetry. simpl. apply Z.leb_gt. exact Hintime. }
  assert (Hcall : forall text,
             catch (Platform.text abortMessage signal r) (fun _ => "") = Fulfilled text ->
             Api.sendMessage abortMessage content tags timeoutMs backend
             = RejectedWith
                 (Error ("POST /send failed: " ++ dec (status r) ++ " " ++ text))).
  { intros text Htext. unfold Api.sendMessage. fold signal.
    rewrite Hfetch. cbn [bind]. rewrite Hstatus. cbn [negb].
    now rewrite Htext. }
  assert (Hin : forall text,
             occurs_in text ("POST /send failed: " ++ dec (status r) ++ " " ++ text)).
  { intros text. rewrite <- !append_assoc. apply occurs_in_tail. }
  unfold Platform.text in Hcall.
  destruct (body r) as [d txt parsed|d e|] eqn:Hbody.
  - exists (if aborted signal d then "" else txt).
    split; [|split; [apply occurs_in_middle|split; [apply Hin|]]].
    + apply Hcall. now destruct (aborted signal d).
    + split; [|split]; try discriminate. now intros ? ? ? [= <- <- _].
  - exists "".
    split; [|split; [apply occurs_in_middle|split; [apply Hin|]]].
    + apply Hcall. now destruct (aborted signal d).
    + split; [|split]; try discriminate; reflexivity.
  - exists "".
    split; [|split; [apply occurs_in_middle|split; [apply Hin|]]].
    + apply Hcall. reflexivity.
    + split; [|split]; try discriminate; reflexivity.
Qed.

(** The timer only covers the wait for the response: once a success
    response is there the timer is disarmed, and a body that never
    finishes leaves the call pending. *)
Remark sendMessage_stalled_body (abortMessage : string) (content : string)
    (tags : list string) (timeoutMs : option Z) (t : Z) :
  t < timer_delay (match timeoutMs with Some ms => ms | None => 60000 end) ->
  Api.sendMessage abortMessage content tags timeoutMs
    (fun _ => Settles t (Responds {| status := 200; body := BodyStalls |}))
  = Pending.
Proof.
  intros Ht. unfold Api.sendMessage, fetch.
  replace (aborted _ t) with false; [reflexivity|].
  symmetry. simpl. apply Z.leb_gt. exact Ht.
Qed.

(** C5: the timeout does not cover a success response's body.  With a
    timeout of 1000 ms (and with the default one), a backend that sends
    status 200 after 120 ms and never finishes the body leaves the call
    pending for good, and one whose body takes 90 seconds has the call
    fulfilled after 90 seconds; no abort error comes.  The read of an
    error response's body, which is awaited inside the [try], is cut off
    by the same timer. *)
Theorem sendMessage_success_body_outlives_timeout :
  Api.sendMessage "aborted" "hi" ["@gpt"] (Some 1000) Scenario.stalling_backend
    = Pending /\
  Api.sendMessage "aborted" "hi" ["@gpt"] None Scenario.stalling_backend
    = Pending /\
  Api.sendMessage "aborted" "hi" ["@gpt"] (Some 1000) Scenario.quick_backend
    = Fulfilled Sample.two_replies /\
  Api.sendMessage "aborted" "hi" ["@gpt"] (Some 1000)
    (fun _ => Settles 120 (Responds {| status := 500; body := BodyStalls |}))
    = RejectedWith (Error "POST /send failed: 500 ").
Proof. repeat split. Qed.

End ApiClient.

(** ** The reset flow *)

Section Reset.

Import Platform App.

Lemma resetChat_fulfilled {J : Type} (abortMessage : string) (backend : Exchange J) (v : J) :
  Api.resetChat abortMessage backend = Fulfilled v <->
  exists t r d txt,
    backend = Settles t (Responds r) /\ ok r = true /\
    body r = BodyArrives d txt (inr v).
Proof.
  unfold Api.resetChat, fetch, json. split.
  - destruct backend as [t [r|e]|]; simpl; try discriminate.
    destruct (ok r) eqn:Hok; simpl; try discriminate.
    destruct (body r) as [d txt [e|v']|d e|] eqn:Hb; try discriminate.
    intros [= ->]. now exists t, r, d, txt.
  - intros (t & r & d & txt & -> & Hok & Hb). simpl. now rewrite Hok, Hb.
Qed.

(** C6 (as amended): when the call of Reset Conversation succeeds, the
    message sequence is emptied and the error cleared whatever they held;
    when it fails, the error is set and the sequence is left as it was.
    The call succeeds when the response has a success status and a body
    that decodes as JSON; what the body decodes to is not looked at. *)
Theorem reset_flow {J : Type} (abortMessage : string) (backend : Exchange J) (s : State) :
  let result := Api.resetChat abortMessage backend in
  let s' := handleReset abortMessage backend s in
  (forall v, result = Fulfilled v ->
     history s' = [] /\ error s' = None /\ content s' = content s /\
     selectedTags s' = selectedTags s /\ isLoading s' = isLoading s) /\
  (forall e, result = RejectedWith e ->
     history s' = history s /\
     error s' = Some ("Failed to reset chat: " ++ message e)) /\
  (forall v, result = Fulfilled v <->
     exists t r d txt,
       backend = Settles t (Responds r) /\ ok r = true /\
       body r = BodyArrives d txt (inr v)) /\
  (forall v v' : J,
     handleReset_resume (Fulfilled v) = handleReset_resume (Fulfilled v')) /\
  (forall t r, backend = Settles t (Responds r) -> ok r = false ->
     result = RejectedWith (Error ("POST /reset failed: " ++ dec (status r)))) /\
  (forall t r d txt e,
     backend = Settles t (Responds r) -> ok r = true ->
     body r = BodyArrives d txt (inl e) -> result = RejectedWith e).
Proof.
  intros result s'. subst result s'. unfold handleReset.
  split; [|split; [|split; [|split; [|split]]]].
  - intros v ->. now repeat split.
  - intros e ->. now split.
  - intros v. apply resetChat_fulfilled.
  - reflexivity.
  - intros t r -> Hok. unfold Api.resetChat. simpl. now rewrite Hok.
  - intros t r d txt e -> Hok Hb. unfold Api.resetChat, json. simpl.
    now rewrite Hok, Hb.
Qed.

(** C6 (as stated) fails: a reset answered with status 200 and an empty
    body leaves the sequence as it was and sets the error. *)
Lemma reset_ok_status_with_undecodable_body :
  let s' := handleReset "aborted" (Settles 3 (Responds Sample.empty_ok))
              Sample.chatting_state in
  ok Sample.empty_ok = true /\
  history s' = [Sample.R1; Sample.R2] /\
  error s' = Some "Failed to reset chat: Unexpected end of JSON input" /\
  ~ (history s' = [] /\ error s' = None).
Proof.
  repeat split. intros [H _]. discriminate H.
Qed.

End Reset.

(** ** The theorems at sample inputs *)

Section Witnesses.

Import Platform App.

Lemma blocked_send_is_noop_witness :
  handleSend_begin Sample.clock Sample.blank_state = ([], None) /\
  run (fst (handleSend_begin Sample.clock Sample.blank_state)) Sample.blank_state
    = Sample.blank_state /\
  (forall abortMessage backend,
     handleSend abortMessage Sample.clock backend Sample.blank_state
     = Sample.blank_state).
Proof.
  apply (blocked_send_is_noop Sample.clock Sample.blank_state).
  left. reflexivity.
Defined.

Lemma send_transmits_witness :
  exists us k,
    handleSend_begin Sample.clock Sample.hi_state = (us, Some k) /\
    callContent (call k) = "hi" /\
    callTags (call k) = ["@gpt"] /\
    callTimeoutMs (call k) = None /\
    map Msg.author (loadingMessages Sample.clock ["@gpt"]) = ["gpt"] /\
    (forall abortMessage backend,
       handleSend abortMessage Sample.clock backend Sample.hi_state
       = run (handleSend_resume k
                (Api.sendMessage abortMessage "hi" ["@gpt"] None backend))
             (run us Sample.hi_state)).
Proof.
  apply (send_transmits_trimmed_text_and_tags Sample.clock Sample.hi_state).
  reflexivity.
Defined.

Lemma optimistic_append_witness :
  let placeholders := loadingMessages Sample.clock ["@gpt"; "@claude"] in
  map Msg.ts placeholders = [1700000000004; 1700000000007] /\
  Forall (fun p => 1700000000001 < Msg.ts p) placeholders /\
  StronglySorted Z.lt (map Msg.ts placeholders).
Proof.
  pose proof (optimistic_append Sample.clock Scenario.two_tag_state eq_refl) as H.
  cbv zeta in H. destruct H as (_ & _ & _ & _ & _ & _ & _ & _ & _ & _ & H).
  split; [reflexivity|]. apply H.
  intros i j Hij. unfold Sample.clock. lia.
Defined.

Lemma successful_send_witness :
  history (run (handleSend_resume Sample.pending_send (Fulfilled Sample.two_replies))
               Sample.pending_state)
  = [ {| Msg.id := "m1"; Msg.author := "user"; Msg.role := "user";
         Msg.content := "hi"; Msg.ts := 1700000000001; Msg.isLoading := false |};
      Sample.R1; Sample.R2 ].
Proof.
  apply (successful_send Sample.pending_send Sample.two_replies Sample.pending_state).
  repeat constructor.
Defined.

Lemma failed_send_witness :
  let s' := handleSend "The operation was aborted." Sample.clock
              Sample.slow_backend Sample.hi_state in
  history s' = [userMessage Sample.clock "hi"] /\
  error s' = Some "Failed to send message: The operation was aborted." /\
  isLoading s' = false.
Proof.
  pose proof (failed_send "The operation was aborted." Sample.clock
                Sample.slow_backend Sample.hi_state
                (AbortError "The operation was aborted.")
                eq_refl eq_refl) as H.
  cbv zeta in H. destruct H as (Hh & _ & He & _ & _ & Hl & _).
  repeat split; assumption.
Defined.

Lemma sendMessage_timeout_witness :
  Api.sendMessage "The operation was aborted." "hi" ["@gpt"] (Some 60000)
    Sample.slow_backend
  = RejectedWith (AbortError "The operation was aborted.").
Proof.
  apply (sendMessage_timeout "The operation was aborted." "hi" ["@gpt"] 60000
           Sample.slow_backend).
  - lia.
  - intros t r [= <- _]. lia.
Defined.

Lemma sendMessage_http_failure_witness :
  exists text : string,
    Api.sendMessage "The operation was aborted." "hi" ["@gpt"] None
      Sample.broken_backend
    = RejectedWith (Error ("POST /send failed: 500 " ++ text)) /\
    text = "boom".
Proof.
  destruct (sendMessage_http_failure "The operation was aborted." "hi" ["@gpt"]
              None Sample.broken_backend 10 _ eq_refl eq_refl eq_refl)
    as (text & Hcall & _ & _ & Htext & _).
  exists text. split; [exact Hcall|].
  exact (Htext _ _ _ eq_refl).
Defined.

End Witnesses.

(** ** More on tag selection *)

Section Selection.

Import App View.

Local Abbreviation other_than tag := (fun t : string => negb (t =? tag)%string).

Lemma remove_In (sel : list string) (tag t : string) :
  In t (filter (other_than tag) sel) <-> t <> tag /\ In t sel.
Proof.
  rewrite filter_In, negb_true_iff, String.eqb_neq. tauto.
Qed.

(** X1: toggling a tag flips whether that tag is selected and leaves every
    other tag selected or not as it was. *)
Theorem toggle_membership (tag t : string) (sel : list string) :
  In t (toggle tag sel) <-> (t = tag /\ ~ In tag sel) \/ (t <> tag /\ In t sel).
Proof.
  unfold toggle. destruct (includes sel tag) eqn:E.
  - apply includes_In in E. rewrite remove_In. split.
    + intros H. now right.
    + intros [[-> H]|H]; [contradiction|exact H].
  - apply includes_false in E. rewrite in_app_iff. simpl. split.
    + intros [H|[<-|[]]].
      * right. split; [|exact H]. intros ->. contradiction.
      * now left.
    + intros [[-> _]|[_ H]]; auto.
Qed.

Lemma toggle_includes_other (a b : string) (sel : list string) :
  a <> b -> includes (toggle b sel) a = includes sel a.
Proof.
  intros Hne.
  destruct (includes sel a) eqn:E.
  - apply includes_In. apply includes_In in E. apply toggle_membership. now right.
  - apply includes_false. apply includes_false in E. intros H.
    apply toggle_membership in H as [[-> _]|[_ H]]; [now apply Hne|contradiction].
Qed.

Lemma toggle_NoDup (tag : string) (sel : list string) :
  NoDup sel -> NoDup (toggle tag sel).
Proof.
  intros H. unfold toggle. destruct (includes sel tag) eqn:E.
  - now apply NoDup_filter.
  - apply includes_false in E. apply NoDup_app; [exact H|repeat constructor; auto|].
    intros t Ht [<-|[]]. contradiction.
Qed.

Lemma step_selectedTags (w : World) (e : Event) :
  selectedTags (view (step w e)) = selectedTags (view w) \/
  (exists tag, selectedTags (view (step w e)) = toggle tag (selectedTags (view w))) \/
  selectedTags (view (step w e)) = [].
Proof.
  destruct e as [v|tag| |now|k now|result|result|result]; simpl; auto.
  - right. left. now exists tag.
  - unfold handleSend_begin. destruct (blocked (view w)); simpl; auto.
  - unfold handleKeyPress, handleSend_begin.
    destruct (_ && _); [destruct (blocked (view w))|]; simpl; auto.
  - destruct (awaited w) as [|c rest]; [auto|].
    destruct result; simpl; auto.
  - destruct result; simpl; auto.
  - destruct result; simpl; auto.
Qed.

(** X2: whatever the user and the backend do, the selection never lists a tag
    twice. *)
Theorem selection_never_repeats_a_tag (events : list Event) :
  NoDup (selectedTags (view (play events))).
Proof.
  unfold play.
  assert (G : forall w, NoDup (selectedTags (view w)) ->
                        NoDup (selectedTags (view (fold_left step events w)))).
  { induction events as [|e events IH]; intros w Hw; [exact Hw|].
    simpl. apply IH.
    destruct (step_selectedTags w e) as [->|[[tag ->]| ->]].
    - exact Hw.
    - now apply toggle_NoDup.
    - constructor. }
  apply G. constructor.
Qed.

(** X3: toggling two different tags gives the same selected tags in either
    order of the two clicks, and the very same list unless both tags were
    absent (two additions are listed in click order). *)
Theorem toggle_two_tags (a b : string) (sel : list string) (Hne : a <> b) :
  (forall t, In t (toggle a (toggle b sel)) <-> In t (toggle b (toggle a sel))) /\
  (In a sel \/ In b sel -> toggle a (toggle b sel) = toggle b (toggle a sel)) /\
  (~ In a sel -> ~ In b sel ->
     toggle a (toggle b sel) = (sel ++ [b; a])%list /\
     toggle b (toggle a sel) = (sel ++ [a; b])%list).
Proof.
  assert (Hne' : b <> a) by congruence.
  split; [|split].
  - intros t. rewrite !toggle_membership.
    destruct (string_dec t a) as [Ta|Ta], (string_dec t b) as [Tb|Tb];
      subst; intuition congruence.
  - intros H.
    unfold toggle at 1 3.
    rewrite (toggle_includes_other a b sel Hne), (toggle_includes_other b a sel Hne').
    unfold toggle.
    destruct (includes sel a) eqn:Ea, (includes sel b) eqn:Eb.
    + clear. induction sel as [|t sel IH]; simpl; [reflexivity|].
      destruct (t =? a)%string eqn:Ta, (t =? b)%string eqn:Tb; simpl;
        rewrite ?Ta, ?Tb; simpl; now rewrite ?IH.
    + rewrite filter_app. simpl.
      replace (b =? a)%string with false; [reflexivity|].
      symmetry. now apply String.eqb_neq.
    + rewrite filter_app. simpl.
      replace (a =? b)%string with false; [reflexivity|].
      symmetry. now apply String.eqb_neq.
    + apply includes_false in Ea, Eb. tauto.
  - intros Ha Hb.
    apply includes_false in Ha, Hb.
    unfold toggle at 1 3.
    rewrite (toggle_includes_other a b sel Hne), (toggle_includes_other b a sel Hne').
    unfold toggle. rewrite Ha, Hb, <- !app_assoc. now split.
Qed.

End Selection.

(** ** The component as an event loop *)

Section EventLoop.

Import App View Invariant.

(** X4: [Cmd/Ctrl+Enter] is the only key press that does anything: it does
    what the send button does, and like the button nothing at all while
    the guard of [handleSend] holds. *)
Theorem key_press_sends_on_modified_enter_only (e : KeyEvent) (now : Clock) (s : State) :
  (key e = "Enter" -> metaKey e = true \/ ctrlKey e = true ->
     handleKeyPress e now s = handleSend_begin now s) /\
  (key e <> "Enter" \/ (metaKey e = false /\ ctrlKey e = false) ->
     handleKeyPress e now s = ([], None)) /\
  (blocked s = true -> handleKeyPress e now s = ([], None)).
Proof.
  unfold handleKeyPress. split; [|split].
  - intros -> [-> | ->]; simpl; [reflexivity|now rewrite orb_true_r].
  - intros [H|[-> ->]].
    + apply String.eqb_neq in H. now rewrite H.
    + now rewrite andb_false_r.
  - intros H. unfold handleSend_begin. rewrite H. now destruct (_ && _).
Qed.

Lemma begin_blocked (now : Clock) (s : State) :
  blocked s = true -> handleSend_begin now s = ([], None).
Proof. intros H. unfold handleSend_begin. now rewrite H. Qed.

Lemma begin_cases (now : Clock) (s : State) :
  handleSend_begin now s = ([], None) \/
  (isLoading s = false /\
   exists k, snd (handleSend_begin now s) = Some k /\
             isLoading (run (fst (handleSend_begin now s)) s) = true).
Proof.
  unfold handleSend_begin. destruct (blocked s) eqn:E; [now left|right].
  split.
  - unfold blocked in E. apply orb_false_iff in E as [_ E]. exact E.
  - eexists. split; reflexivity.
Qed.

Lemma key_press_cases (e : KeyEvent) (now : Clock) (s : State) :
  handleKeyPress e now s = ([], None) \/
  handleKeyPress e now s = handleSend_begin now s.
Proof. unfold handleKeyPress. destruct (_ && _); auto. Qed.

Lemma started_single_flight (w : World) (now : Clock) :
  single_flight w -> single_flight (started w (handleSend_begin now (view w))).
Proof.
  intros Hw. destruct (begin_cases now (view w)) as [E|(Hidle & k & Hk & Hl)].
  - rewrite E. unfold started. simpl. now rewrite app_nil_r.
  - right. unfold started. rewrite Hk. simpl. split; [exact Hl|].
    destruct Hw as [[_ ->]|[Hbusy _]]; [now exists k|congruence].
Qed.

Lemma step_single_flight (w : World) (e : Event) :
  single_flight w -> single_flight (step w e).
Proof.
  intros Hw.
  destruct e as [v|tag| |now|k now|result|result|result]; simpl.
  - exact Hw.
  - exact Hw.
  - exact Hw.
  - now apply started_single_flight.
  - destruct (key_press_cases k now (view w)) as [-> | ->].
    + unfold started. simpl. now rewrite app_nil_r.
    + now apply started_single_flight.
  - destruct Hw as [[Hl Ha]|[Hl (c & Ha)]].
    + rewrite Ha. now left.
    + rewrite Ha. destruct result; simpl; [now left|now left|].
      right. split; [exact Hl|now exists c].
  - destruct result; exact Hw.
  - destruct result; exact Hw.
Qed.

(** X5: whatever the user and the backend do, at most one call of Send
    Message is awaited at any time, and the in-flight flag is set exactly
    while one is. *)
Theorem one_send_in_flight (events : list Event) :
  let w := play events in
  (List.length (awaited w) <= 1)%nat /\
  (isLoading (view w) = true <-> awaited w <> []).
Proof.
  assert (G : forall w, single_flight w -> single_flight (fold_left step events w)).
  { induction events as [|e events IH]; intros w Hw; [exact Hw|].
    simpl. apply IH. now apply step_single_flight. }
  intros w. assert (Hw : single_flight w) by (apply G; now left).
  destruct Hw as [[Hl Ha]|[Hl (k & Ha)]]; rewrite Hl, Ha; simpl.
  - split; [lia|]. split; [discriminate|congruence].
  - split; [lia|]. split; [discriminate|reflexivity].
Qed.

Lemma started_idle_clean (w : World) (now : Clock) :
  idle_clean (view w) -> idle_clean (view (started w (handleSend_begin now (view w)))).
Proof.
  intros Hw. destruct (begin_cases now (view w)) as [E|(_ & k & _ & Hl)].
  - now rewrite E.
  - unfold started, idle_clean. simpl. rewrite Hl. discriminate.
Qed.

Lemma step_idle_clean (w : World) (e : Event) :
  from_server_unflagged e -> idle_clean (view w) -> idle_clean (view (step w e)).
Proof.
  intros He Hw.
  destruct e as [v|tag| |now|k now|result|result|result]; simpl.
  - exact Hw.
  - exact Hw.
  - exact Hw.
  - now apply started_idle_clean.
  - destruct (key_press_cases k now (view w)) as [-> | ->].
    + exact Hw.
    + now apply started_idle_clean.
  - destruct (awaited w) as [|c rest]; [exact Hw|].
    destruct result as [response|err|]; simpl; [| |exact Hw].
    + intros _. simpl. now apply reconcile_unflagged.
    + intros _. simpl. apply dropLoading_unflagged.
  - destruct result; simpl; [|exact Hw|exact Hw].
    intros _. constructor.
  - destruct result as [response|err|]; simpl; [|exact Hw|exact Hw].
    intros _. exact He.
Qed.

(** X6: as long as the messages that come from the server carry no loading
    flag, a view with no send in flight shows no loading-flagged entry,
    whatever the user and the backend did before. *)
Theorem no_placeholder_when_idle (events : list Event)
    (Hserver : Forall from_server_unflagged events) :
  isLoading (view (play events)) = false ->
  Forall (fun msg => Msg.isLoading msg = false) (history (view (play events))).
Proof.
  assert (G : forall w, idle_clean (view w) ->
                        idle_clean (view (fold_left step events w))).
  { induction Hserver as [|e events He _ IH]; intros w Hw; [exact Hw|].
    simpl. apply IH. now apply step_idle_clean. }
  apply G. intros _. constructor.
Qed.

End EventLoop.

(** ** One whole send *)

Section WholeSend.

Import Platform App View.

Local Abbreviation patch tempId response :=
  (fun msg : Msg.Message =>
     if (Msg.id msg =? tempId)%string
     then Msg.with_id (Api.userMessageId response) msg
     else msg).

(** X7: a send that passes the guard clears the composer text and any earlier
    error before the call is made and never touches the selection: the
    text is not restored when the call fails, and the state the handler
    ends in is the one given here for each way the call can end. *)
Theorem whole_send (abortMessage : string) (now : Clock)
    (backend : Api.SendBody -> Exchange Api.SendResponse) (s : State)
    (Hgo : blocked s = false) :
  let user := userMessage now (trim (content s)) in
  let s' := handleSend abortMessage now backend s in
  content s' = "" /\
  selectedTags s' = selectedTags s /\
  match Api.sendMessage abortMessage (trim (content s)) (selectedTags s) None backend with
  | Fulfilled response =>
      history s' = (map (patch (tempUserMessageId now) response) (dropLoading (history s))
                    ++ Msg.with_id (Api.userMessageId response) user
                    :: Api.replies response)%list /\
      isLoading s' = false /\ error s' = None
  | RejectedWith err =>
      history s' = (dropLoading (history s) ++ [user])%list /\
      isLoading s' = false /\
      error s' = Some ("Failed to send message: " ++ message err)
  | Pending =>
      history s' = (history s ++ user :: loadingMessages now (selectedTags s))%list /\
      isLoading s' = true /\ error s' = None
  end.
Proof.
  intros user s'. subst user s'. unfold handleSend, handleSend_begin. rewrite Hgo.
  cbn [call callContent callTags callTimeoutMs].
  destruct (Api.sendMessage _ _ _ _ _) as [response|err|];
    cbn [handleSend_resume run fold_left apply history error isLoading content
         selectedTags tempId].
  - repeat split. apply reconcile_after_append.
  - repeat split. apply dropLoading_after_append.
  - repeat split.
Qed.

(** X8: when the backend answers Send Message with a success status in time
    and the body then never finishes, the handler never resumes: the
    in-flight flag stays set, the placeholders stay on display, and every
    later attempt to send does nothing. *)
Theorem stalled_body_blocks_the_view (abortMessage : string) (now : Clock)
    (backend : Api.SendBody -> Exchange Api.SendResponse) (s : State)
    (t : Z) (r : Response Api.SendResponse)
    (Hgo : blocked s = false)
    (Hanswer : backend {| Api.content := trim (content s);
                          Api.tags := selectedTags s |} = Settles t (Responds r))
    (Hintime : t < timer_delay 60000)
    (Hok : ok r = true)
    (Hbody : body r = BodyStalls) :
  let s' := handleSend abortMessage now backend s in
  isLoading s' = true /\
  history s' = (history s ++ userMessage now (trim (content s))
                :: loadingMessages now (selectedTags s))%list /\
  (forall now' backend', handleSend abortMessage now' backend' s' = s') /\
  (forall e now', handleKeyPress e now' s' = ([], None)).
Proof.
  intros s'.
  assert (Hcall : Api.sendMessage abortMessage (trim (content s)) (selectedTags s)
                    None backend = Pending).
  { unfold Api.sendMessage. rewrite Hanswer. unfold fetch.
    replace (aborted _ t) with false
      by (symmetry; simpl; apply Z.leb_gt; exact Hintime).
    cbn [bind]. rewrite Hok. cbn [negb]. unfold json. now rewrite Hbody. }
  assert (Hs : s' = run (fst (handleSend_begin now s)) s).
  { subst s'. unfold handleSend, handleSend_begin. rewrite Hgo.
    cbn [call callContent callTags callTimeoutMs fst]. now rewrite Hcall. }
  assert (Hl : isLoading s' = true)
    by (rewrite Hs; unfold handleSend_begin; now rewrite Hgo).
  assert (Hh : history s'
               = (history s ++ userMessage now (trim (content s))
                  :: loadingMessages now (selectedTags s))%list)
    by (rewrite Hs; unfold handleSend_begin; now rewrite Hgo).
  assert (Hb : blocked s' = true).
  { unfold blocked. rewrite Hl. now rewrite !orb_true_r. }
  split; [exact Hl|]. split; [exact Hh|]. split.
  - intros now' backend'. unfold handleSend, handleSend_begin. now rewrite Hb.
  - intros e now'. unfold handleKeyPress, handleSend_begin. rewrite Hb.
    now destruct (_ && _).
Qed.

End WholeSend.

(** ** More on the API client *)

Section ApiOutcomes.

Import Platform.

Variable abortMessage : string.

Local Abbreviation delay timeoutMs :=
  (timer_delay (match timeoutMs with Some ms => ms | None => 60000 end)).

Lemma aborted_armed (a t : Z) : aborted (Some a) t = false <-> t < a.
Proof. simpl. apply Z.leb_gt. Qed.

Lemma aborted_armed_true (a t : Z) : aborted (Some a) t = true <-> a <= t.
Proof. simpl. apply Z.leb_le. Qed.

(** What [sendMessage] does once the response is there in time. *)
Lemma sendMessage_answered (content : string) (tags : list string)
    (timeoutMs : option Z) (backend : Api.SendBody -> Exchange Api.SendResponse)
    (t : Z) (r : Response Api.SendResponse) :
  backend {| Api.content := content; Api.tags := tags |} = Settles t (Responds r) ->
  t < delay timeoutMs ->
  Api.sendMessage abortMessage content tags timeoutMs backend
  = if ok r
    then json abortMessage None r
    else text <- catch (text abortMessage (Some (delay timeoutMs)) r) (fun _ => "") ;;
         RejectedWith
           (Error ("POST /send failed: " ++ dec (status r) ++ " " ++ text)).
Proof.
  intros Hb Ht. unfold Api.sendMessage. rewrite Hb. unfold fetch.
  apply aborted_armed in Ht. rewrite Ht. cbn [bind]. now destruct (ok r).
Qed.

(** What [sendMessage] does when the timer fires first. *)
Lemma sendMessage_cut_off (content : string) (tags : list string)
    (timeoutMs : option Z) (backend : Api.SendBody -> Exchange Api.SendResponse) :
  (backend {| Api.content := content; Api.tags := tags |} = NeverSettles \/
   exists t r, backend {| Api.content := content; Api.tags := tags |} = Settles t r /\
               delay timeoutMs <= t) ->
  Api.sendMessage abortMessage content tags timeoutMs backend
  = RejectedWith (AbortError abortMessage).
Proof.
  unfold Api.sendMessage. intros [-> |(t & r & -> & Ht)]; [reflexivity|].
  unfold fetch. apply aborted_armed_true in Ht. now rewrite Ht.
Qed.

Lemma sendMessage_network_error (content : string) (tags : list string)
    (timeoutMs : option Z) (backend : Api.SendBody -> Exchange Api.SendResponse)
    (t : Z) (e : JsError) :
  backend {| Api.content := content; Api.tags := tags |} = Settles t (NetworkError e) ->
  t < delay timeoutMs ->
  Api.sendMessage abortMessage content tags timeoutMs backend = RejectedWith e.
Proof.
  intros Hb Ht. unfold Api.sendMessage. rewrite Hb. unfold fetch.
  apply aborted_armed in Ht. now rewrite Ht.
Qed.

(** The answers of a backend, by what [sendMessage] makes of them. *)
Lemma answer_cases (timeoutMs : option Z) (x : Exchange Api.SendResponse) :
  (x = NeverSettles \/ exists t r, x = Settles t r /\ delay timeoutMs <= t) \/
  (exists t e, x = Settles t (NetworkError e) /\ t < delay timeoutMs) \/
  (exists t r, x = Settles t (Responds r) /\ t < delay timeoutMs).
Proof.
  destruct x as [t r|]; [|now left; left].
  destruct (Z.lt_ge_cases t (delay timeoutMs)) as [Ht|Ht].
  - right. destruct r as [r|e]; [right|left]; eauto.
  - left. right. eauto.
Qed.

(** X9: [sendMessage] stays pending in one case only: a success response
    that came in time and whose body never finishes. *)
Theorem sendMessage_hangs_only_on_stalled_body (content : string)
    (tags : list string) (timeoutMs : option Z)
    (backend : Api.SendBody -> Exchange Api.SendResponse) :
  Api.sendMessage abortMessage content tags timeoutMs backend = Pending <->
  exists t r,
    backend {| Api.content := content; Api.tags := tags |} = Settles t (Responds r) /\
    t < delay timeoutMs /\ ok r = true /\ body r = BodyStalls.
Proof.
  split.
  - intros H.
    destruct (answer_cases timeoutMs (backend {| Api.content := content; Api.tags := tags |}))
      as [Hc|[(t & e & Hb & Ht)|(t & r & Hb & Ht)]].
    + rewrite (sendMessage_cut_off _ _ _ _ Hc) in H. discriminate.
    + rewrite (sendMessage_network_error _ _ _ _ _ _ Hb Ht) in H. discriminate.
    + rewrite (sendMessage_answered _ _ _ _ _ _ Hb Ht) in H.
      exists t, r. split; [exact Hb|]. split; [exact Ht|].
      destruct (ok r).
      * split; [reflexivity|]. unfold json in H.
        destruct (body r) as [d txt [e|v]|d e|]; simpl in H; try discriminate.
        reflexivity.
      * exfalso. unfold text in H.
        destruct (body r) as [d txt p|d e|]; simpl in H;
          try destruct (_ <=? d); discriminate.
  - intros (t & r & Hb & Ht & Hok & Hbody).
    rewrite (sendMessage_answered _ _ _ _ _ _ Hb Ht), Hok.
    unfold json. now rewrite Hbody.
Qed.

(** X10: [sendMessage] is fulfilled exactly when a success response came
    before the timer fired and its body decodes; how long the body takes
    does not matter, the timer being disarmed by then. *)
Theorem sendMessage_fulfilled_iff (content : string) (tags : list string)
    (timeoutMs : option Z) (backend : Api.SendBody -> Exchange Api.SendResponse)
    (v : Api.SendResponse) :
  Api.sendMessage abortMessage content tags timeoutMs backend = Fulfilled v <->
  exists t r d txt,
    backend {| Api.content := content; Api.tags := tags |} = Settles t (Responds r) /\
    t < delay timeoutMs /\ ok r = true /\ body r = BodyArrives d txt (inr v).
Proof.
  split.
  - intros H.
    destruct (answer_cases timeoutMs (backend {| Api.content := content; Api.tags := tags |}))
      as [Hc|[(t & e & Hb & Ht)|(t & r & Hb & Ht)]].
    + rewrite (sendMessage_cut_off _ _ _ _ Hc) in H. discriminate.
    + rewrite (sendMessage_network_error _ _ _ _ _ _ Hb Ht) in H. discriminate.
    + rewrite (sendMessage_answered _ _ _ _ _ _ Hb Ht) in H.
      destruct (ok r) eqn:Hok.
      * unfold json in H.
        destruct (body r) as [d txt [e|v']|d e|] eqn:Hbody; simpl in H;
          try discriminate.
        injection H as ->. now exists t, r, d, txt.
      * exfalso. unfold text in H.
        destruct (body r) as [d txt p|d e|]; simpl in H;
          try destruct (_ <=? d); discriminate.
  - intros (t & r & d & txt & Hb & Ht & Hok & Hbody).
    rewrite (sendMessage_answered _ _ _ _ _ _ Hb Ht), Hok.
    unfold json. now rewrite Hbody.
Qed.

(** X11: every rejection of [sendMessage] is one of five: the abort error when
    the timer fired first, the network's own error, the status error for
    a response that is not a success, the decoding error of a success
    body, or the error that broke the success body's stream. *)
Theorem sendMessage_rejections (content : string) (tags : list string)
    (timeoutMs : option Z) (backend : Api.SendBody -> Exchange Api.SendResponse)
    (err : JsError) :
  let answer := backend {| Api.content := content; Api.tags := tags |} in
  Api.sendMessage abortMessage content tags timeoutMs backend = RejectedWith err <->
  ((answer = NeverSettles \/ exists t r, answer = Settles t r /\ delay timeoutMs <= t) /\
   err = AbortError abortMessage) \/
  (exists t, answer = Settles t (NetworkError err) /\ t < delay timeoutMs) \/
  (exists t r txt,
     answer = Settles t (Responds r) /\ t < delay timeoutMs /\ ok r = false /\
     catch (text abortMessage (Some (delay timeoutMs)) r) (fun _ => "") = Fulfilled txt /\
     err = Error ("POST /send failed: " ++ dec (status r) ++ " " ++ txt)) \/
  (exists t r d txt,
     answer = Settles t (Responds r) /\ t < delay timeoutMs /\ ok r = true /\
     body r = BodyArrives d txt (inl err)) \/
  (exists t r d,
     answer = Settles t (Responds r) /\ t < delay timeoutMs /\ ok r = true /\
     body r = BodyBreaks d err).
Proof.
  intros answer. split.
  - intros H.
    destruct (answer_cases timeoutMs answer)
      as [Hc|[(t & e & Hb & Ht)|(t & r & Hb & Ht)]].
    + left. split; [exact Hc|].
      rewrite (sendMessage_cut_off _ _ _ _ Hc) in H. now injection H.
    + right. left. exists t.
      rewrite (sendMessage_network_error _ _ _ _ _ _ Hb Ht) in H.
      injection H as <-. now split.
    + right. right.
      rewrite (sendMessage_answered _ _ _ _ _ _ Hb Ht) in H.
      destruct (ok r) eqn:Hok.
      * right. unfold json in H.
        destruct (body r) as [d txt [e|v]|d e|] eqn:Hbody; simpl in H;
          try discriminate; injection H as <-.
        -- left. now exists t, r, d, txt.
        -- right. now exists t, r, d.
      * left.
        destruct (catch (text abortMessage (Some (delay timeoutMs)) r) (fun _ => ""))
          as [txt|e|] eqn:Htxt; cbn [bind] in H; try discriminate.
        -- injection H as <-. now exists t, r, txt.
        -- exfalso. unfold catch in Htxt. now destruct (text _ _ _).
  - intros [[Hc ->]|[(t & Hb & Ht)|[(t & r & txt & Hb & Ht & Hok & Htxt & ->)|
                                    [(t & r & d & txt & Hb & Ht & Hok & Hbody)|
                                     (t & r & d & Hb & Ht & Hok & Hbody)]]]].
    + now apply sendMessage_cut_off.
    + now apply (sendMessage_network_error _ _ _ _ t).
    + rewrite (sendMessage_answered _ _ _ _ _ _ Hb Ht), Hok.
      now rewrite Htxt.
    + rewrite (sendMessage_answered _ _ _ _ _ _ Hb Ht), Hok.
      unfold json. now rewrite Hbody.
    + rewrite (sendMessage_answered _ _ _ _ _ _ Hb Ht), Hok.
      unfold json. now rewrite Hbody.
Qed.

End ApiOutcomes.

Section ApiEdges.

Import Platform App View.

Variable abortMessage : string.

Ltac unarmed_pending backend :=
  unfold fetch, json; split;
  [ destruct backend as [t [r|e]|]; simpl; [| discriminate | now left];
    destruct (ok r) eqn:Hok; simpl; [|discriminate];
    destruct (body r) as [d txt [e|v]|d e|] eqn:Hb; try discriminate;
    intros _; right; now exists t, r
  | intros [-> |(t & r & -> & Hok & Hb)]; [reflexivity|];
    simpl; now rewrite Hok, Hb ].

Ltac unarmed_same backend :=
  unfold fetch, json;
  destruct backend as [t [r|e]|]; reflexivity.

(** X12: [getHistory] and [resetChat] arm no timer: they stay pending for as
    long as the backend does not answer (or a success body does not
    finish), and the abort error plays no part in what they return. *)
Theorem history_and_reset_have_no_timeout {J : Type}
    (h : Exchange Api.HistoryResponse) (x : Exchange J) :
  (Api.getHistory abortMessage h = Pending <->
   h = NeverSettles \/
   exists t r, h = Settles t (Responds r) /\ ok r = true /\ body r = BodyStalls) /\
  (Api.resetChat abortMessage x = Pending <->
   x = NeverSettles \/
   exists t r, x = Settles t (Responds r) /\ ok r = true /\ body r = BodyStalls) /\
  (forall other : string,
     Api.getHistory other h = Api.getHistory abortMessage h /\
     Api.resetChat other x = Api.resetChat abortMessage x).
Proof.
  split; [|split].
  - unfold Api.getHistory. unarmed_pending h.
  - unfold Api.resetChat. unarmed_pending x.
  - intros other. unfold Api.getHistory, Api.resetChat. split.
    + unarmed_same h.
    + unarmed_same x.
Qed.

Lemma wrap32_small (ms : Z) : 0 <= ms <= 2147483647 -> wrap32 ms = ms.
Proof.
  intros H. unfold wrap32. rewrite Z.mod_small; lia.
Qed.

Lemma wrap32_large (ms : Z) : 2147483648 <= ms < 4294967296 -> wrap32 ms < 0.
Proof.
  intros H. unfold wrap32.
  replace (ms + 2 ^ 31) with ((ms - 2 ^ 31) + 1 * 2 ^ 32) by lia.
  rewrite Z.mod_add by lia. rewrite Z.mod_small; lia.
Qed.

(** X13: a timeout from 0 to 2147483647 ms is honoured to the millisecond: a
    success response that comes before it, with a body that decodes, is
    what the call returns, however long the body takes. *)
Theorem sendMessage_in_time (content : string) (tags : list string)
    (timeoutMs : Z) (backend : Api.SendBody -> Exchange Api.SendResponse)
    (t d : Z) (r : Response Api.SendResponse) (txt : string) (v : Api.SendResponse)
    (Hrange : 0 <= timeoutMs <= 2147483647)
    (Hanswer : backend {| Api.content := content; Api.tags := tags |}
               = Settles t (Responds r))
    (Hintime : t < timeoutMs)
    (Hok : ok r = true)
    (Hbody : body r = BodyArrives d txt (inr v)) :
  Api.sendMessage abortMessage content tags (Some timeoutMs) backend = Fulfilled v.
Proof.
  rewrite (sendMessage_answered abortMessage _ _ _ _ _ _ Hanswer).
  - rewrite Hok. unfold json. now rewrite Hbody.
  - unfold timer_delay. rewrite wrap32_small by exact Hrange. lia.
Qed.

(** X14: a timeout from 2147483648 to 4294967295 ms wraps to a negative delay:
    the timer fires at once and every call is rejected with the abort
    error, whatever the backend answers. *)
Theorem sendMessage_timeout_overflow (content : string) (tags : list string)
    (timeoutMs : Z) (backend : Api.SendBody -> Exchange Api.SendResponse)
    (Hrange : 2147483648 <= timeoutMs < 4294967296)
    (Hcausal : forall t r,
        backend {| Api.content := content; Api.tags := tags |} = Settles t r -> 0 <= t) :
  Api.sendMessage abortMessage content tags (Some timeoutMs) backend
  = RejectedWith (AbortError abortMessage).
Proof.
  apply sendMessage_cut_off.
  destruct (backend _) as [t r|] eqn:E; [right|now left].
  exists t, r. split; [reflexivity|].
  unfold timer_delay. pose proof (wrap32_large timeoutMs Hrange).
  pose proof (Hcausal t r eq_refl). lia.
Qed.

End ApiEdges.

(** ** What the user sees when the backend fails or answers late *)

Section Banners.

Import Platform App View.

Variable abortMessage : string.

(** X15: the banner after Send Message was answered with an error status and a
    body that could be read in time: the prefix of the view, the prefix of
    the API client, the status code and the body text. *)
Theorem send_http_failure_banner (now : Clock)
    (backend : Api.SendBody -> Exchange Api.SendResponse) (s : State)
    (t d : Z) (r : Response Api.SendResponse) (txt : string)
    (parsed : JsError + Api.SendResponse)
    (Hgo : blocked s = false)
    (Hanswer : backend {| Api.content := trim (content s);
                          Api.tags := selectedTags s |} = Settles t (Responds r))
    (Hintime : t < timer_delay 60000)
    (Hstatus : ok r = false)
    (Hbody : body r = BodyArrives d txt parsed)
    (Hread : d < timer_delay 60000) :
  error (handleSend abortMessage now backend s)
  = Some ("Failed to send message: POST /send failed: "
          ++ dec (status r) ++ " " ++ txt).
Proof.
  unfold handleSend, handleSend_begin. rewrite Hgo.
  cbn [call callContent callTags callTimeoutMs].
  rewrite (sendMessage_answered abortMessage _ _ None _ _ _ Hanswer Hintime).
  rewrite Hstatus. unfold text. rewrite Hbody.
  apply aborted_armed in Hread. rewrite Hread. reflexivity.
Qed.

(** X16: reset and the history load put the status code in the banner and
    never the body; both leave the message sequence as it was. *)
Theorem reset_and_history_failure_banners {J : Type} (t : Z)
    (rr : Response J) (rh : Response Api.HistoryResponse) (s : State)
    (Hreset : ok rr = false) (Hhistory : ok rh = false) :
  let s1 := handleReset abortMessage (Settles t (Responds rr)) s in
  let s2 := loadHistory abortMessage (Settles t (Responds rh)) s in
  error s1 = Some ("Failed to reset chat: POST /reset failed: " ++ dec (status rr)) /\
  history s1 = history s /\
  error s2 = Some ("Failed to load history: GET /history failed: " ++ dec (status rh)) /\
  history s2 = history s.
Proof.
  unfold handleReset, loadHistory, Api.resetChat, Api.getHistory. simpl.
  rewrite Hreset, Hhistory. simpl. now repeat split.
Qed.

(** X17: the history load replaces the whole sequence when it succeeds,
    entries of a send in flight included, and sets the error when it
    fails; it never clears an earlier error and never touches the
    composer, the selection or the in-flight flag. *)
Theorem history_load (h : Exchange Api.HistoryResponse) (s : State) :
  let s' := loadHistory abortMessage h s in
  content s' = content s /\
  selectedTags s' = selectedTags s /\
  isLoading s' = isLoading s /\
  (forall v, Api.getHistory abortMessage h = Fulfilled v ->
     history s' = Api.history v /\ error s' = error s) /\
  (forall e, Api.getHistory abortMessage h = RejectedWith e ->
     history s' = history s /\
     error s' = Some ("Failed to load history: " ++ message e)) /\
  (Api.getHistory abortMessage h = Pending -> s' = s).
Proof.
  intros s'. subst s'. unfold loadHistory.
  destruct (Api.getHistory abortMessage h) as [v|e|]; simpl;
    (split; [reflexivity|]); (split; [reflexivity|]); (split; [reflexivity|]);
    (split; [|split]); try discriminate; try reflexivity.
  - intros v' [= <-]. now split.
  - intros e' [= <-]. now split.
Qed.

(** X18: a reset that succeeds while a send is in flight takes the optimistic
    user message away with the placeholders: when the send then succeeds
    the sequence holds the replies and nothing else, and when it fails the
    sequence is empty. *)
Theorem reset_during_send {J : Type} (now : Clock) (s : State) (k : Continuation)
    (v : J) (Hbegin : snd (handleSend_begin now s) = Some k) :
  let s1 := run (fst (handleSend_begin now s)) s in
  let s2 := run (handleReset_resume (Fulfilled v)) s1 in
  isLoading s2 = true /\ history s2 = [] /\
  (forall response,
     let s3 := run (handleSend_resume k (Fulfilled response)) s2 in
     history s3 = Api.replies response /\ isLoading s3 = false /\ error s3 = None) /\
  (forall err,
     let s3 := run (handleSend_resume k (RejectedWith err)) s2 in
     history s3 = [] /\ isLoading s3 = false /\
     error s3 = Some ("Failed to send message: " ++ message err)).
Proof.
  unfold handleSend_begin in *. destruct (blocked s); [discriminate|].
  simpl in *. repeat split.
Qed.

End Banners.

(** ** The text that is sent *)

Section SentText.

Import App.

Lemma trimStart_split (s : string) :
  exists pre, s = pre ++ trimStart s /\ blank pre = true.
Proof.
  induction s as [|c s (pre & E & B)]; simpl.
  - now exists "".
  - destruct (isWhiteSpace c) eqn:W.
    + exists (String c pre). simpl. rewrite W, B. split; [now f_equal|reflexivity].
    + now exists "".
Qed.

Lemma trimStart_first (s : string) (c : ascii) :
  first_unit (trimStart s) = Some c -> isWhiteSpace c = false.
Proof.
  induction s as [|x s IH]; simpl; [discriminate|].
  destruct (isWhiteSpace x) eqn:W; [exact IH|].
  simpl. now intros [= <-].
Qed.

Lemma trimEnd_split (s : string) :
  exists post, s = trimEnd s ++ post /\ blank post = true.
Proof.
  induction s as [|c s (post & E & B)]; simpl.
  - now exists "".
  - destruct (trimEnd s) as [|y r] eqn:T.
    + destruct (isWhiteSpace c) eqn:W.
      * exists (String c post). simpl in *. rewrite W, B. split; [now f_equal|reflexivity].
      * exists post. simpl in *. split; [now f_equal|exact B].
    + exists post. simpl in *. split; [now f_equal|exact B].
Qed.

Lemma trimEnd_last (s : string) (c : ascii) :
  last_unit (trimEnd s) = Some c -> isWhiteSpace c = false.
Proof.
  induction s as [|x s IH]; simpl; [discriminate|].
  destruct (trimEnd s) as [|y r] eqn:T.
  - destruct (isWhiteSpace x) eqn:W; simpl; [discriminate|]. now intros [= <-].
  - simpl in *. destruct (last_unit r) as [l|]; exact IH.
Qed.

Lemma trimEnd_first (s : string) (c : ascii) :
  first_unit s = Some c -> isWhiteSpace c = false -> first_unit (trimEnd s) = Some c.
Proof.
  destruct s as [|x s]; simpl; [discriminate|].
  intros [= ->] W. destruct (trimEnd s); [now rewrite W|reflexivity].
Qed.

Lemma blank_append (a b : string) : blank (a ++ b) = blank a && blank b.
Proof.
  induction a as [|c a IH]; simpl; [reflexivity|]. now rewrite IH, andb_assoc.
Qed.

Lemma trimStart_blank (s : string) : blank s = true -> trimStart s = "".
Proof.
  induction s as [|c s IH]; simpl; [reflexivity|].
  intros H. apply andb_true_iff in H as [W B]. rewrite W. auto.
Qed.

Lemma trim_empty_iff (s : string) : trim s = "" <-> blank s = true.
Proof.
  unfold trim. split.
  - intros H. destruct (trimStart_split s) as (pre & E & B).
    destruct (trimEnd_split (trimStart s)) as (post & E' & B').
    rewrite H in E'. simpl in E'. rewrite E, E', blank_append, B, B'. reflexivity.
  - intros H. now rewrite trimStart_blank.
Qed.

(** X19: for a composer text of one-byte code units, the guard of
    [handleSend] holds exactly when every code unit of the text is one of
    TAB, LF, VT, FF, CR, SP and NBSP (the empty text included), or no tag
    is selected, or a send is in flight. *)
Theorem blank_text_cannot_be_sent (s : State) :
  blocked s = true <->
  blank (content s) = true \/ selectedTags s = [] \/ isLoading s = true.
Proof.
  rewrite blocked_iff, trim_empty_iff. reflexivity.
Qed.

(** X20: for a composer text of one-byte code units, the text handed to
    Send Message is the composer text without the white space around it:
    the composer text is that text between two runs of TAB, LF, VT, FF,
    CR, SP and NBSP, and the text itself is not empty and neither starts
    nor ends with one of these. *)
Theorem sent_text_is_the_trimmed_composer_text (now : Clock) (s : State)
    (Hgo : blocked s = false) :
  exists k pre post,
    snd (handleSend_begin now s) = Some k /\
    content s = pre ++ callContent (call k) ++ post /\
    blank pre = true /\ blank post = true /\
    callContent (call k) <> "" /\
    (forall c, first_unit (callContent (call k)) = Some c -> isWhiteSpace c = false) /\
    (forall c, last_unit (callContent (call k)) = Some c -> isWhiteSpace c = false).
Proof.
  destruct (trimStart_split (content s)) as (pre & E & B).
  destruct (trimEnd_split (trimStart (content s))) as (post & E' & B').
  unfold handleSend_begin. rewrite Hgo. eexists. exists pre, post.
  split; [reflexivity|]. cbn [call callContent]. unfold trim.
  split; [now rewrite <- E'|]. split; [exact B|]. split; [exact B'|].
  split; [|split].
  - intros H. fold (trim (content s)) in H.
    assert (Hb : blocked s = true) by (apply blocked_iff; now left).
    congruence.
  - intros c Hc.
    destruct (trimStart (content s)) as [|x r] eqn:T; [discriminate Hc|].
    assert (W : isWhiteSpace x = false)
      by (apply (trimStart_first (content s)); now rewrite T).
    rewrite (trimEnd_first (String x r) x eq_refl W) in Hc. now injection Hc as <-.
  - intros c. apply trimEnd_last.
Qed.

End SentText.

(** ** Display helpers *)

Section Display.

Import App View.

(** X21: an author other than "user", "gpt" and "claude" is shown under its
    own identifier and in the neutral colour, and the neutral colour is
    given to no other author. *)
Theorem unknown_author_falls_back (author : string) :
  let known := author = "user" \/ author = "gpt" \/ author = "claude" in
  (~ known -> getAuthorName author = author) /\
  (getAuthorColor author
   = "bg-gray-100 text-gray-900 dark:bg-gray-800 dark:text-gray-100" <-> ~ known).
Proof.
  unfold getAuthorName, getAuthorColor.
  destruct (String.eqb_spec author "user") as [->|Hu]; simpl.
  { split; [tauto|]. split; [discriminate|tauto]. }
  destruct (String.eqb_spec author "gpt") as [->|Hg]; simpl.
  { split; [tauto|]. split; [discriminate|tauto]. }
  destruct (String.eqb_spec author "claude") as [->|Hc]; simpl.
  { split; [tauto|]. split; [discriminate|tauto]. }
  split; [reflexivity|]. split; [tauto|reflexivity].
Qed.

Lemma prefix_split (p s : string) :
  String.prefix p s = true -> exists rest, s = p ++ rest.
Proof.
  revert s. induction p as [|a p IH]; intros s H.
  - now exists s.
  - destruct s as [|b s]; simpl in H; [discriminate|].
    destruct (ascii_dec a b) as [->|]; [|discriminate].
    destruct (IH s H) as (rest & ->). now exists rest.
Qed.

(** X22: a message is styled as an error exactly when its content begins with
    "(error from", whoever its author is; the optimistic user message is
    one when the trimmed text begins so, and a placeholder never is. *)
Theorem error_style_goes_by_content (now : Clock) (c : string) (tags : list string)
    (msg : Msg.Message) :
  (isErrorMessage (Msg.content msg) = true <->
   exists rest, Msg.content msg = "(error from" ++ rest) /\
  isErrorMessage (Msg.content (userMessage now c)) = isErrorMessage c /\
  Forall (fun p => isErrorMessage (Msg.content p) = false) (loadingMessages now tags).
Proof.
  split; [|split].
  - unfold isErrorMessage. split.
    + apply prefix_split.
    + intros (rest & ->). apply prefix_append.
  - reflexivity.
  - apply Forall_forall. intros p Hp.
    apply AppFacts.mapi_from_In in Hp as (i & x & _ & _ & ->). reflexivity.
Qed.

End Display.

(** ** More on reconciliation *)

Section Keys.

Import App AppFacts.

Local Abbreviation patch tempId response :=
  (fun msg : Msg.Message =>
     if (Msg.id msg =? tempId)%string
     then Msg.with_id (Api.userMessageId response) msg
     else msg).

Lemma patch_apart_from_id (t : string) (response : Api.SendResponse) (l : list Msg.Message) :
  map apart_from_id (map (patch t response) l) = map apart_from_id l.
Proof.
  induction l as [|m l IH]; simpl; [reflexivity|]. rewrite IH. f_equal.
  now destruct (Msg.id m =? t)%string.
Qed.

(** X23: the success update changes ids and nothing else: the entries that
    were not loading keep their place, author, role, content, timestamp
    and flag, and each keeps its id unless that id is the temporary one. *)
Theorem reconcile_changes_ids_only (t : string) (response : Api.SendResponse)
    (prev : list Msg.Message) :
  map apart_from_id (reconcile t response prev)
    = (map apart_from_id (dropLoading prev)
       ++ map apart_from_id (Api.replies response))%list /\
  List.length (reconcile t response prev)
    = (List.length (dropLoading prev) + List.length (Api.replies response))%nat /\
  (forall i m, nth_error (dropLoading prev) i = Some m ->
     nth_error (reconcile t response prev) i
     = Some (if (Msg.id m =? t)%string
             then Msg.with_id (Api.userMessageId response) m else m)) /\
  (forall i, nth_error (reconcile t response prev) (List.length (dropLoading prev) + i)
             = nth_error (Api.replies response) i).
Proof.
  unfold reconcile. fold (dropLoading prev).
  split; [|split; [|split]].
  - now rewrite map_app, patch_apart_from_id.
  - now rewrite length_app, length_map.
  - intros i m H. rewrite nth_error_app1.
    + now rewrite nth_error_map, H.
    + rewrite length_map. apply nth_error_Some. congruence.
  - intros i. rewrite nth_error_app2; rewrite length_map; [|lia].
    f_equal. lia.
Qed.

Lemma kept_id_was_there (prev : list Msg.Message) (x : string) :
  In x (map Msg.id (dropLoading prev)) -> In x (map Msg.id prev).
Proof.
  intros H. apply in_map_iff in H as (m & Hid & Hm).
  apply filter_In in Hm as [Hm _]. apply in_map_iff. now exists m.
Qed.

Lemma kept_ids_distinct (prev : list Msg.Message) :
  NoDup (map Msg.id prev) -> NoDup (map Msg.id (dropLoading prev)).
Proof.
  induction prev as [|m prev IH]; intros H; [constructor|].
  inversion H as [|y ys Hm Hprev]; subst.
  unfold dropLoading in *. simpl.
  destruct (Msg.isLoading m); simpl; [now apply IH|].
  constructor; [|now apply IH].
  intros Hin. apply Hm. now apply kept_id_was_there.
Qed.

(** X24: the ids, which the list is keyed by, stay distinct through a
    successful send: when the earlier entries have distinct ids none of
    which is the temporary one, and the ids the server issues are new and
    distinct, the sequence after reconciliation has distinct ids. *)
Theorem ids_stay_distinct (now : Clock) (c : string) (tags : list string)
    (response : Api.SendResponse) (prev : list Msg.Message)
    (Hprev : NoDup (map Msg.id prev))
    (Htemp : ~ In (tempUserMessageId now) (map Msg.id prev))
    (Hfresh : NoDup (Api.userMessageId response :: map Msg.id (Api.replies response)))
    (Hnew : forall x, In x (map Msg.id prev) ->
                      ~ In x (Api.userMessageId response
                              :: map Msg.id (Api.replies response))) :
  NoDup (map Msg.id
           (reconcile (tempUserMessageId now) response
              (appendOptimistic now c tags prev))).
Proof.
  rewrite reconcile_after_append.
  rewrite patch_other_ids.
  - rewrite map_app. simpl.
    apply NoDup_app.
    + now apply kept_ids_distinct.
    + exact Hfresh.
    + intros x Hx. apply Hnew. now apply kept_id_was_there.
  - apply Forall_forall. intros m Hm Hid. apply Htemp.
    apply filter_In in Hm as [Hm _]. apply in_map_iff. now exists m.
Qed.

End Keys.

Section Retry.

Import App AppFacts.

Local Abbreviation patch tempId response :=
  (fun msg : Msg.Message =>
     if (Msg.id msg =? tempId)%string
     then Msg.with_id (Api.userMessageId response) msg
     else msg).

Lemma temp_id_inj (now1 now2 : Clock) :
  tempUserMessageId now1 = tempUserMessageId now2 <-> now1 0%nat = now2 0%nat.
Proof.
  unfold tempUserMessageId. split.
  - intros H. injection H as H. now apply dec_inj.
  - now intros ->.
Qed.

(** X25: the message of a failed send stays in the sequence under its
    temporary id: a later send that succeeds leaves it as it is and puts
    its own message after it, unless both sends read the same millisecond
    off the clock, in which case both messages get the server-issued id. *)
Theorem failed_message_stays (now1 now2 : Clock) (c1 c2 : string)
    (tags1 tags2 : list string) (response : Api.SendResponse)
    (prev : list Msg.Message) :
  let after_failure := dropLoading (appendOptimistic now1 c1 tags1 prev) in
  let after_retry :=
    reconcile (tempUserMessageId now2) response
      (appendOptimistic now2 c2 tags2 after_failure) in
  let earlier := map (patch (tempUserMessageId now2) response) (dropLoading prev) in
  after_failure = (dropLoading prev ++ [userMessage now1 c1])%list /\
  (now1 0%nat <> now2 0%nat ->
     after_retry
     = (earlier
        ++ userMessage now1 c1
        :: Msg.with_id (Api.userMessageId response) (userMessage now2 c2)
        :: Api.replies response)%list) /\
  (now1 0%nat = now2 0%nat ->
     after_retry
     = (earlier
        ++ Msg.with_id (Api.userMessageId response) (userMessage now1 c1)
        :: Msg.with_id (Api.userMessageId response) (userMessage now2 c2)
        :: Api.replies response)%list).
Proof.
  intros after_failure after_retry earlier. subst after_failure after_retry earlier.
  rewrite dropLoading_after_append, reconcile_after_append.
  assert (Hd : dropLoading (dropLoading prev ++ [userMessage now1 c1])
               = (dropLoading prev ++ [userMessage now1 c1])%list).
  { unfold dropLoading. rewrite filter_app. simpl. f_equal.
    induction prev as [|m prev IH]; simpl; [reflexivity|].
    destruct (Msg.isLoading m) eqn:E; simpl; [exact IH|].
    rewrite E. simpl. now f_equal. }
  rewrite Hd, map_app, <- app_assoc. cbn [map app].
  split; [reflexivity|]. split.
  - intros Hne.
    assert (F : (Msg.id (userMessage now1 c1) =? tempUserMessageId now2)%string = false).
    { apply String.eqb_neq. intros E. apply Hne. apply temp_id_inj. exact E. }
    now rewrite F.
  - intros He.
    assert (F : (Msg.id (userMessage now1 c1) =? tempUserMessageId now2)%string = true).
    { apply String.eqb_eq. apply temp_id_inj. exact He. }
    now rewrite F.
Qed.

End Retry.

(** ** The further theorems at sample inputs *)

Section MoreWitnesses.

Import Platform App View.

Lemma toggle_two_tags_witness :
  toggle "@gpt" (toggle "@claude" ["@gpt"]) = toggle "@claude" (toggle "@gpt" ["@gpt"]).
Proof.
  apply (toggle_two_tags "@gpt" "@claude" ["@gpt"]).
  - discriminate.
  - left. left. reflexivity.
Defined.

Lemma no_placeholder_when_idle_witness :
  Forall (fun msg => Msg.isLoading msg = false)
         (history (view (play Scenario.one_exchange))).
Proof.
  apply (no_placeholder_when_idle Scenario.one_exchange).
  - repeat constructor.
  - reflexivity.
Defined.

Lemma whole_send_witness :
  content (handleSend "aborted" Sample.clock Scenario.quick_backend Sample.hi_state) = "" /\
  selectedTags (handleSend "aborted" Sample.clock Scenario.quick_backend Sample.hi_state)
    = ["@gpt"].
Proof.
  pose proof (whole_send "aborted" Sample.clock Scenario.quick_backend
                Sample.hi_state eq_refl) as H.
  cbv zeta in H. destruct H as (Hc & Ht & _). split; assumption.
Defined.

Lemma stalled_body_witness :
  isLoading (handleSend "aborted" Sample.clock Scenario.stalling_backend Sample.hi_state)
  = true.
Proof.
  apply (stalled_body_blocks_the_view "aborted" Sample.clock
           Scenario.stalling_backend Sample.hi_state 120 Scenario.stalling);
    reflexivity.
Defined.

Lemma sendMessage_in_time_witness :
  Api.sendMessage "aborted" "hi" ["@gpt"] (Some 1000) Scenario.quick_backend
  = Fulfilled Sample.two_replies.
Proof.
  apply (sendMessage_in_time "aborted" "hi" ["@gpt"] 1000 Scenario.quick_backend
           120 90000 Scenario.quick "{}" Sample.two_replies); try reflexivity.
  lia.
Defined.

Lemma sendMessage_timeout_overflow_witness :
  Api.sendMessage "aborted" "hi" ["@gpt"] (Some 3000000000) Scenario.quick_backend
  = RejectedWith (AbortError "aborted").
Proof.
  apply (sendMessage_timeout_overflow "aborted" "hi" ["@gpt"] 3000000000
           Scenario.quick_backend).
  - lia.
  - intros t r [= <- _]. lia.
Defined.

Lemma send_http_failure_banner_witness :
  error (handleSend "aborted" Sample.clock (fun _ => Settles 10 (Responds Scenario.send_500))
           Sample.hi_state)
  = Some "Failed to send message: POST /send failed: 500 boom".
Proof.
  apply (send_http_failure_banner "aborted" Sample.clock
           (fun _ => Settles 10 (Responds Scenario.send_500)) Sample.hi_state
           10 20 Scenario.send_500 "boom"
           (inl {| name := "SyntaxError"; message := "Unexpected token" |}));
    reflexivity.
Defined.

Lemma reset_and_history_failure_banners_witness :
  error (handleReset "aborted" (Settles 10 (Responds Scenario.reset_503))
           Sample.chatting_state)
  = Some "Failed to reset chat: POST /reset failed: 503".
Proof.
  apply (reset_and_history_failure_banners "aborted" 10 Scenario.reset_503
           Scenario.history_404 Sample.chatting_state); reflexivity.
Defined.

Lemma reset_during_send_witness :
  history (run (handleSend_resume Sample.pending_send (Fulfilled Sample.two_replies))
             (run (handleReset_resume (Fulfilled tt)) Sample.pending_state))
  = [Sample.R1; Sample.R2].
Proof.
  pose proof (reset_during_send Sample.clock Sample.hi_state Sample.pending_send tt
                eq_refl) as H.
  cbv zeta in H. destruct H as (_ & _ & H & _).
  apply (H Sample.two_replies).
Defined.

Lemma sent_text_witness :
  exists k pre post,
    snd (handleSend_begin Sample.clock Sample.hi_state) = Some k /\
    "  hi  " = pre ++ callContent (call k) ++ post /\
    blank pre = true /\ blank post = true /\
    callContent (call k) <> "" /\
    (forall c, first_unit (callContent (call k)) = Some c -> isWhiteSpace c = false) /\
    (forall c, last_unit (callContent (call k)) = Some c -> isWhiteSpace c = false).
Proof.
  apply (sent_text_is_the_trimmed_composer_text Sample.clock Sample.hi_state).
  reflexivity.
Defined.

Lemma ids_stay_distinct_witness :
  NoDup (map Msg.id
           (reconcile (tempUserMessageId Sample.clock) Sample.two_replies
              (appendOptimistic Sample.clock "hi" ["@gpt"] []))).
Proof.
  apply (ids_stay_distinct Sample.clock "hi" ["@gpt"] Sample.two_replies []).
  - constructor.
  - intros [].
  - repeat constructor; simpl; intuition discriminate.
  - intros x [].
Defined.

End MoreWitnesses.
